(** * data_extractor: the question extractors of [short.py], [long.py], [mcqs.py]

    A shallow embedding of the three scripts and the properties their
    specification states about them.

    - Python strings are sequences of Unicode code points: [list N].
    - The document tree is what [BeautifulSoup(html_text, "lxml")] builds;
      the selector engine, [get_text], [find] and [get] of the library are
      modelled on that tree for the calls the scripts make.
    - The Unicode tables behind [str.upper] and the regex class [\d], and the
      HTML parser itself, are parameters (classes [Unicode] and [Parser]). *)

From Stdlib Require Import String Ascii NArith ZArith Lia.
From stdpp Require Import base tactics option list numbers gmap sorting.

#[local] Set Warnings "-register-all,-clear-no-such-hyp".

Local Open Scope N_scope.

(** ** Python strings *)

Abbreviation pystr := (list N).

(** A literal of the source, written as a Rocq string of ASCII characters. *)
Definition lit (s : string) : pystr :=
  N_of_ascii <$> list_ascii_of_string s.

Definition SLASH : N := 47.      (* "/" *)
Definition BACKSLASH : N := 92.  (* "\\" *)
Definition DOT : N := 46.        (* "." *)
Definition SPACE : N := 32.      (* " " *)
Definition NBSP : N := 160.      (* "\xa0" *)
Definition LPAR : N := 40.       (* "(" *)
Definition RPAR : N := 41.       (* ")" *)
Definition MINUS : N := 45.      (* "-" *)

(** [between lo hi c]: lo <= c <= hi. *)
Definition between (lo hi c : N) : bool := (lo <=? c) && (c <=? hi).

(** The characters [str.strip()] removes: CPython's [Py_UNICODE_ISSPACE]
    (bidirectional type WS, B or S, or category Zs). *)
Definition isspace (c : N) : bool :=
  between 9 13 c || between 28 31 c || (c =? 32) || (c =? 133) || (c =? 160)
  || (c =? 5760) || between 8192 8202 c || (c =? 8232) || (c =? 8233)
  || (c =? 8239) || (c =? 8287) || (c =? 12288).

Fixpoint lstrip_by (p : N → bool) (s : pystr) : pystr :=
  match s with
  | [] => []
  | c :: t => if p c then lstrip_by p t else s
  end.

Definition rstrip_by (p : N → bool) (s : pystr) : pystr :=
  reverse (lstrip_by p (reverse s)).

Definition strip_by (p : N → bool) (s : pystr) : pystr :=
  rstrip_by p (lstrip_by p s).

(** [s.strip()] *)
Definition strip (s : pystr) : pystr := strip_by isspace s.

Definition in_chars (chars : pystr) (c : N) : bool := bool_decide (c ∈ chars).

(** [s.strip(chars)] and [s.rstrip(chars)] *)
Definition strip_chars (chars s : pystr) : pystr := strip_by (in_chars chars) s.
Definition rstrip_chars (chars s : pystr) : pystr := rstrip_by (in_chars chars) s.

(** [s.replace(old, new)] for one-character [old] and [new]: every
    occurrence is rewritten. *)
Definition replace1 (old new : N) (s : pystr) : pystr :=
  (λ c, if c =? old then new else c) <$> s.

(** [sep.join(parts)] *)
Fixpoint join (sep : pystr) (parts : list pystr) : pystr :=
  match parts with
  | [] => []
  | [p] => p
  | p :: rest => p ++ sep ++ join sep rest
  end.

(** [cut sep s]: the text before and after the first [sep] of [s]. *)
Fixpoint cut (sep : N) (s : pystr) : option (pystr * pystr) :=
  match s with
  | [] => None
  | c :: t =>
      if c =? sep then Some ([], t)
      else match cut sep t with
           | Some (a, b) => Some (c :: a, b)
           | None => None
           end
  end.

(** [s.split(sep, maxsplit)] for a one-character separator. *)
Fixpoint split (sep : N) (maxsplit : nat) (s : pystr) : list pystr :=
  match maxsplit with
  | O => [s]
  | S k =>
      match cut sep s with
      | Some (a, b) => a :: split sep k b
      | None => [s]
      end
  end.

(** [s.rfind(c)]: the index of the last [c] of [s], or -1. *)
Fixpoint rfind_from (c : N) (s : pystr) (i acc : Z) : Z :=
  match s with
  | [] => acc
  | x :: t => rfind_from c t (i + 1)%Z (if x =? c then i else acc)
  end.

Definition rfind (c : N) (s : pystr) : Z := rfind_from c s 0%Z (-1)%Z.

(** [s[i:j]] for 0 <= i. *)
Definition slice (s : pystr) (i j : Z) : pystr :=
  take (Z.to_nat j - Z.to_nat i)%nat (drop (Z.to_nat i) s).

(** [s.endswith(suffix)] *)
Definition endswith (suffix s : pystr) : bool :=
  bool_decide (drop (length s - length suffix)%nat s = suffix).

(** ASCII case mapping. *)
Definition ascii_upper (c : N) : N := if between 97 122 c then c - 32 else c.
Definition ascii_lower (c : N) : N := if between 65 90 c then c + 32 else c.
Definition ascii_digit (c : N) : bool := between 48 57 c.

(** The Unicode tables the scripts reach through [str.upper] and the regex
    class [\d]. They are not part of the repository; the laws fix them on
    ASCII, where the tables of every Unicode version agree. *)
Class Unicode := {
  upper_cp : N → pystr;       (* full uppercase mapping of one code point *)
  lower : pystr → pystr;      (* [s.lower()] *)
  isdecimal : N → bool;       (* category Nd, the class [\d] *)
  upper_cp_ascii : ∀ c, c < 128 → upper_cp c = [ascii_upper c];
  lower_ascii : ∀ s, Forall (λ c, c < 128) s → lower s = ascii_lower <$> s;
  isdecimal_ascii : ∀ c, c < 128 → isdecimal c = ascii_digit c;
}.

(** [s.upper()] *)
Definition upper `{Unicode} (s : pystr) : pystr := s ≫= upper_cp.

(** The tables cut down to ASCII: code points from 128 on have no case and
    are not digits. Used to evaluate the extractors on ASCII inputs. *)
#[export] Program Instance ascii_tables : Unicode := {|
  upper_cp c := [ascii_upper c];
  lower s := ascii_lower <$> s;
  isdecimal c := ascii_digit c;
|}.
Solve All Obligations with done.

(** ** os.path (posixpath) *)

(** [os.path.basename(p)]: [p[p.rfind("/") + 1:]] *)
Definition basename (p : pystr) : pystr :=
  drop (Z.to_nat (rfind SLASH p + 1)) p.

(** [os.path.splitext(p)[0]]: split at the last dot after the last slash,
    unless only dots stand between that slash and the dot. *)
Definition splitext_root (p : pystr) : pystr :=
  let sepIndex := rfind SLASH p in
  let dotIndex := rfind DOT p in
  if (sepIndex <? dotIndex)%Z
     && existsb (λ c, negb (c =? DOT)) (slice p (sepIndex + 1) dotIndex)
  then take (Z.to_nat dotIndex) p
  else p.

(** [os.path.join(a, b)] *)
Definition path_join (a b : pystr) : pystr :=
  match b with
  | c :: _ => if c =? SLASH then b
              else match last a with
                   | None => b
                   | Some l => if l =? SLASH then a ++ b else a ++ [SLASH] ++ b
                   end
  | [] => match last a with
          | None => []
          | Some l => if l =? SLASH then a else a ++ [SLASH]
          end
  end.

(** ** parse_section_parts (identical in the three scripts) *)

Definition parse_section_parts (filename : pystr) : pystr * pystr :=
  let base := splitext_root (basename filename) in
  let parts := split DOT 2 base in
  if (2 <=? length parts)%nat then
    (join [DOT] (take 2 parts),
     if (length parts =? 3)%nat then default [] (parts !! 2%nat) else [])
  else ([], base).

(** ** The document tree

    What the parser hands to the scripts: strings, comments (which
    [get_text] skips) and tags. A tag carries its name, the token list of
    its [class] attribute ([[]] when it has none: [li.get("class") or []]),
    its other attributes as a dict, and its children in document order. *)

Inductive node :=
| NavigableString (s : pystr)
| Comment (s : pystr)
| Tag (name : pystr) (classes : list pystr) (attrs : gmap pystr pystr)
      (contents : list node).

(** An element together with its ancestors, nearest first: the library's
    [parent] links. *)
Record located := Located { path : list node; elem : node }.

Definition is_tag (n : node) : bool :=
  match n with Tag _ _ _ _ => true | _ => false end.

Definition tag_named (name : pystr) (n : node) : bool :=
  match n with Tag t _ _ _ => bool_decide (t = name) | _ => false end.

Definition class_list (n : node) : list pystr :=
  match n with Tag _ cs _ _ => cs | _ => [] end.

(** [el.get(key)] for a single-valued attribute: [None] when absent. *)
Definition get (key : pystr) (n : node) : option pystr :=
  match n with Tag _ _ a _ => a !! key | _ => None end.

(** [el.descendants]: every node below [n], in document order. *)
Fixpoint descendants (anc : list node) (n : node) : list located :=
  match n with
  | Tag _ _ _ cs =>
      (fix go (l : list node) : list located :=
         match l with
         | [] => []
         | c :: l' => Located (n :: anc) c :: descendants (n :: anc) c ++ go l'
         end) cs
  | _ => []
  end.

Definition descendants_of (x : located) : list located :=
  descendants (path x) (elem x).

(** The strings [get_text] collects: the NavigableStrings below [n], in
    document order. *)
Fixpoint strings (n : node) : list pystr :=
  match n with
  | NavigableString s => [s]
  | Comment _ => []
  | Tag _ _ _ cs =>
      (fix go (l : list node) : list pystr :=
         match l with
         | [] => []
         | c :: l' => strings c ++ go l'
         end) cs
  end.

(** The number of nodes of a tree. *)
Fixpoint node_size (n : node) : nat :=
  match n with
  | Tag _ _ _ cs =>
      S ((fix go (l : list node) : nat :=
            match l with
            | [] => 0%nat
            | c :: l' => (node_size c + go l')%nat
            end) cs)
  | _ => 1%nat
  end.

(** [el.get_text()] *)
Definition get_text (n : node) : pystr := concat (strings n).

(** [el.get_text(sep, strip=True)]: every string stripped, the empty ones
    dropped, the rest joined by [sep]. *)
Definition get_text_strip (sep : pystr) (n : node) : pystr :=
  join sep (filter (λ s, s ≠ []) (strip <$> strings n)).

(** [el.find(name)]: the first tag of that name below [el]. *)
Definition find_tag (name : pystr) (x : located) : option located :=
  head (filter (λ d, tag_named name (elem d) = true) (descendants_of x)).

(** *** CSS selectors

    The fragment of the selector language the scripts use: compound
    selectors of tag names, classes and ids, combined by the descendant
    (blank) and child ([>]) combinators. As in the library, the ancestors
    of a candidate are followed through [parent] up to the document, also
    past the element [select] was called on. *)

Inductive simple_selector :=
| ByTag (name : pystr)
| ByClass (c : pystr)
| ById (i : pystr).

Inductive selector :=
| Compound (ss : list simple_selector)
| Descendant (left : selector) (right : list simple_selector)
| Child (left : selector) (right : list simple_selector).

Definition matches_simple (s : simple_selector) (n : node) : bool :=
  match s with
  | ByTag name => tag_named name n
  | ByClass c => bool_decide (c ∈ class_list n)
  | ById i => bool_decide (get (lit "id") n = Some i)
  end.

Definition matches_compound (ss : list simple_selector) (n : node) : bool :=
  is_tag n && forallb (λ s, matches_simple s n) ss.

Fixpoint matches (sel : selector) (anc : list node) (n : node) : bool :=
  match sel with
  | Compound ss => matches_compound ss n
  | Descendant l r =>
      matches_compound r n
      && (fix up (anc : list node) : bool :=
            match anc with
            | [] => false
            | a :: rest => matches l rest a || up rest
            end) anc
  | Child l r =>
      matches_compound r n
      && match anc with
         | [] => false
         | a :: rest => matches l rest a
         end
  end.

(** [el.select(sel)]: the descendants of [el] that match, in document order. *)
Definition select (sel : selector) (x : located) : list located :=
  filter (λ d, matches sel (path d) (elem d) = true) (descendants_of x).

(** [el.select_one(sel)] *)
Definition select_one (sel : selector) (x : located) : option located :=
  head (select sel x).

(** "#chooseQuestionsByChapterIDs .TableHover" *)
Definition SEL_ROWS : selector :=
  Descendant (Compound [ById (lit "chooseQuestionsByChapterIDs")])
             [ByClass (lit "TableHover")].
(** ".EnglishDiv p", ".UrduDiv p", ".En p", ".Ur p" *)
Definition SEL_ENGLISH_P : selector :=
  Descendant (Compound [ByClass (lit "EnglishDiv")]) [ByTag (lit "p")].
Definition SEL_URDU_P : selector :=
  Descendant (Compound [ByClass (lit "UrduDiv")]) [ByTag (lit "p")].
Definition SEL_EN_P : selector :=
  Descendant (Compound [ByClass (lit "En")]) [ByTag (lit "p")].
Definition SEL_UR_P : selector :=
  Descendant (Compound [ByClass (lit "Ur")]) [ByTag (lit "p")].
(** "ul > li" *)
Definition SEL_UL_LI : selector :=
  Child (Compound [ByTag (lit "ul")]) [ByTag (lit "li")].

(** The HTML parser: [BeautifulSoup(html_text, "lxml")]. The document it
    returns is the root of the tree; it has no parent. *)
Class Parser := { BeautifulSoup : pystr → node }.

Definition document (soup : node) : located := Located [] soup.

(** [p.get_text(" ", strip=True) if p else ""] *)
Definition text_or_empty (p : option located) : pystr :=
  match p with
  | Some p => get_text_strip [SPACE] (elem p)
  | None => []
  end.

(** ** short.py and long.py: the plain form *)

Record question := Question {
  q_id : option pystr;
  english : pystr;
  urdu : pystr;
}.

(** short.py, lines 20-30 *)
Definition extract_questions `{Parser} (html_text : pystr) : list question :=
  let soup := BeautifulSoup html_text in
  (λ row,
     let qid := get (lit "id") (elem row) in
     let eng_p := select_one SEL_ENGLISH_P row in
     let urd_p := select_one SEL_URDU_P row in
     let eng := replace1 NBSP SPACE (text_or_empty eng_p) in
     let urd := replace1 NBSP SPACE (text_or_empty urd_p) in
     Question qid eng urd)
  <$> select SEL_ROWS (document soup).

(** long.py, lines 19-32 *)
Definition extract_long_questions `{Parser} (html_text : pystr) : list question :=
  let soup := BeautifulSoup html_text in
  (λ row,
     let qid := get (lit "id") (elem row) in
     let eng_p := select_one SEL_ENGLISH_P row in
     let urd_p := select_one SEL_URDU_P row in
     let eng := replace1 NBSP SPACE (text_or_empty eng_p) in
     let urd := replace1 NBSP SPACE (text_or_empty urd_p) in
     Question qid eng urd)
  <$> select SEL_ROWS (document soup).

(** ** mcqs.py *)

(** One entry of [opts]: [{"en": ..., "ur": ...}] *)
Record option_text := OptionText { en : pystr; ur : pystr }.

#[export] Instance option_text_inhabited : Inhabited option_text :=
  populate (OptionText [] []).

Record mcq := Mcq {
  mcq_id : option pystr;
  question_en : pystr;
  question_ur : pystr;
  option_a_en : pystr;
  option_a_ur : pystr;
  option_b_en : pystr;
  option_b_ur : pystr;
  option_c_en : pystr;
  option_c_ur : pystr;
  option_d_en : pystr;
  option_d_ur : pystr;
  correct_option : pystr;
}.

(** mcqs.py, lines 19-20. Every caller passes a string, so [text or ""] is
    [text]. *)
Definition _clean (text : pystr) : pystr :=
  strip (replace1 NBSP SPACE text).

(** [re.search(r"-\(([A-D])\)", tc, re.IGNORECASE)]: group 1 of the leftmost
    match. No code point outside ASCII folds to a letter of [A-D]. *)
Fixpoint search_thiscorrect (tc : pystr) : option pystr :=
  match tc with
  | [] => None
  | _ :: t =>
      match tc with
      | m :: l :: x :: r :: _ =>
          if (m =? MINUS) && (l =? LPAR) && between 65 68 (ascii_upper x)
             && (r =? RPAR)
          then Some [x]
          else search_thiscorrect t
      | _ => search_thiscorrect t
      end
  end.

(** Lines 55-58: the letter of an item, ["(A)" -> "A"]. A tag is truthy
    whatever its contents. *)
Definition letter_of `{Unicode} (li : located) : pystr :=
  match find_tag (lit "span") li with
  | Some letter_span =>
      if bool_decide (get_text (elem letter_span) ≠ [])
      then upper (strip_chars (lit "()") (strip (get_text (elem letter_span))))
      else []
  | None => []
  end.

(** Lines 61-64 *)
Definition en_txt_of (li : located) : pystr :=
  _clean (text_or_empty (select_one SEL_EN_P li)).
Definition ur_txt_of (li : located) : pystr :=
  _clean (text_or_empty (select_one SEL_UR_P li)).

(** Line 71: ["correctAnswer" in (li.get("class") or [])] *)
Definition is_marked (li : located) : bool :=
  bool_decide (lit "correctAnswer" ∈ class_list (elem li)).

(** Lines 53-79: the body of the loop over the items, on the two variables
    it updates, [opts] and [correct_letter]. *)
Definition li_step `{Unicode} (st : gmap pystr option_text * pystr)
    (li : located) : gmap pystr option_text * pystr :=
  let '(opts, correct_letter) := st in
  let letter := letter_of li in
  let en_txt := en_txt_of li in
  let ur_txt := ur_txt_of li in
  let opts :=
    if bool_decide (letter ∈ dom opts)
    then <[letter := OptionText en_txt ur_txt]> opts
    else opts in
  let correct_letter :=
    if is_marked li then
      if bool_decide (letter ≠ []) then letter
      else
        let tc := default [] (get (lit "thiscorrect") (elem li)) in
        match search_thiscorrect tc with
        | Some g => upper g
        | None => correct_letter
        end
    else correct_letter in
  (opts, correct_letter).

(** Lines 44-49 *)
Definition default_opts : gmap pystr option_text :=
  <[lit "A" := OptionText [] []]>
  (<[lit "B" := OptionText [] []]>
  (<[lit "C" := OptionText [] []]>
  (<[lit "D" := OptionText [] []]> ∅))).

(** Lines 37-90: the record of one row. *)
Definition mcq_of_row `{Unicode} (row : located) : mcq :=
  let qid := get (lit "id") (elem row) in
  let eng_p := select_one SEL_ENGLISH_P row in
  let urd_p := select_one SEL_URDU_P row in
  let question_en := _clean (text_or_empty eng_p) in
  let question_ur := _clean (text_or_empty urd_p) in
  let '(opts, correct_letter) :=
    foldl li_step (default_opts, []) (select SEL_UL_LI row) in
  Mcq qid question_en question_ur
      (en (opts !!! lit "A")) (ur (opts !!! lit "A"))
      (en (opts !!! lit "B")) (ur (opts !!! lit "B"))
      (en (opts !!! lit "C")) (ur (opts !!! lit "C"))
      (en (opts !!! lit "D")) (ur (opts !!! lit "D"))
      correct_letter.

(** mcqs.py, lines 22-92 *)
Definition extract_mcqs `{Parser} `{Unicode} (html_text : pystr) : list mcq :=
  let soup := BeautifulSoup html_text in
  mcq_of_row <$> select SEL_ROWS (document soup).

(** ** The chapter of a folder

    [re.search(r"(chapter\d+)", folder.replace("\\", "/"), flags=re.IGNORECASE)]
    and [m.group(1) if m else ""]. No code point outside ASCII folds to a
    letter of "chapter". *)

Fixpoint prefix_ci (pat s : pystr) : bool :=
  match pat, s with
  | [], _ => true
  | _ :: _, [] => false
  | p :: pat', c :: s' => (ascii_lower c =? p) && prefix_ci pat' s'
  end.

Fixpoint take_while (p : N → bool) (s : pystr) : pystr :=
  match s with
  | [] => []
  | c :: t => if p c then c :: take_while p t else []
  end.

(** The match of [chapter\d+] that starts at the head of [s]: the digits are
    taken greedily. *)
Definition match_chapter_at `{Unicode} (s : pystr) : option pystr :=
  if prefix_ci (lit "chapter") s then
    match take_while isdecimal (drop 7 s) with
    | [] => None
    | digits => Some (take 7 s ++ digits)
    end
  else None.

(** The leftmost match. *)
Fixpoint search_chapter `{Unicode} (s : pystr) : option pystr :=
  match match_chapter_at s with
  | Some m => Some m
  | None => match s with
            | [] => None
            | _ :: t => search_chapter t
            end
  end.

Definition chapter_no_of `{Unicode} (folder : pystr) : pystr :=
  default [] (search_chapter (replace1 BACKSLASH SLASH folder)).

(** ** The scripts' [main]

    The part of the file system a run touches: the directories it may list
    and the CSV files it appends to. An entry of a directory is a name and
    the text [fp.read()] returns, or [None] when opening or decoding the
    file raises. A CSV file is the sequence of rows written to it, the
    header row being the one [writeheader] writes; it is of size 0 exactly
    when it has no row. *)

Inductive csv_row :=
| HeaderRow (fieldnames : list pystr)
| DataRow (fields : list pystr).

Record world := World {
  listdir : pystr → option (list (pystr * option pystr));
  csv : gmap pystr (list csv_row);
}.

Inductive outcome :=
| Exit (status : Z)
| Finished (w : world).

(** [sorted(names)]: by code point, as Python compares strings. *)
Fixpoint str_leb (a b : pystr) : bool :=
  match a, b with
  | [], _ => true
  | _ :: _, [] => false
  | x :: a', y :: b' =>
      if x <? y then true else if y <? x then false else str_leb a' b'
  end.

Fixpoint insert_entry {A} (e : pystr * A) (l : list (pystr * A)) : list (pystr * A) :=
  match l with
  | [] => [e]
  | e' :: l' =>
      if str_leb e.1 e'.1 then e :: l else e' :: insert_entry e l'
  end.

Definition sorted {A} (l : list (pystr * A)) : list (pystr * A) :=
  foldr insert_entry [] l.

(** A field of a row as [csv] writes it: [None] is written as the empty
    string. *)
Definition csv_field (v : option pystr) : pystr := default [] v.

(** The row [writer.writerow] receives for a plain record, in the order of
    [fieldnames]. *)
Definition plain_row (chapter_no section_no section_name : pystr)
    (r : question) : csv_row :=
  DataRow [chapter_no; section_no; section_name;
           csv_field (q_id r); english r; urdu r].

Definition mcq_row (chapter_no section_no section_name : pystr)
    (r : mcq) : csv_row :=
  DataRow [chapter_no; section_no; section_name;
           csv_field (mcq_id r); question_en r; question_ur r;
           option_a_en r; option_a_ur r; option_b_en r; option_b_ur r;
           option_c_en r; option_c_ur r; option_d_en r; option_d_ur r;
           correct_option r].

Definition fieldnames_plain : list pystr :=
  [lit "chapter_no"; lit "section_no"; lit "section_name";
   lit "id"; lit "english"; lit "urdu"].

Definition fieldnames_mcqs : list pystr :=
  [lit "chapter_no"; lit "section_no"; lit "section_name";
   lit "id"; lit "question_en"; lit "question_ur";
   lit "option_a_en"; lit "option_a_ur"; lit "option_b_en"; lit "option_b_ur";
   lit "option_c_en"; lit "option_c_ur"; lit "option_d_en"; lit "option_d_ur";
   lit "correct_option"].

(** The rows one file contributes: nothing when its name does not end in
    ".html" or when it cannot be read. *)
Definition rows_of_entry `{Unicode}
    (rows_of_html : pystr → pystr → pystr → list csv_row)
    (e : pystr * option pystr) : list csv_row :=
  let '(name, content) := e in
  if negb (endswith (lit ".html") (lower name)) then []
  else match content with
       | None => []
       | Some html_content =>
           let '(section_no, section_name) := parse_section_parts name in
           rows_of_html section_no section_name html_content
       end.

(** The three [main] functions are the same text up to the output
    directory, the field names and the extractor they call. *)
Definition script_main `{Unicode} (out_subdir : pystr) (fieldnames : list pystr)
    (rows_of_html : pystr → pystr → pystr → pystr → list csv_row)
    (argv : list pystr) (w : world) : outcome :=
  match argv with
  | _ :: arg1 :: arg2 :: _ =>
      let folder := rstrip_chars (lit "\/") arg1 in
      let book_name := arg2 in
      match listdir w folder with
      | None => Exit 1
      | Some entries =>
          let chapter_no := chapter_no_of folder in
          let out_dir := path_join (lit "csv") out_subdir in
          let csv_path := path_join out_dir (book_name ++ lit ".csv") in
          let file_exists := bool_decide (is_Some (csv w !! csv_path)) in
          let f := default [] (csv w !! csv_path) in
          let f :=
            if negb file_exists || bool_decide (f = [])
            then f ++ [HeaderRow fieldnames] else f in
          let f :=
            foldl (λ f e, f ++ rows_of_entry (rows_of_html chapter_no) e)
                  f (sorted entries) in
          Finished (World (listdir w) (<[csv_path := f]> (csv w)))
      end
  | _ => Exit 1
  end.

(** short.py, lines 32-90 *)
Definition main_short `{Parser} `{Unicode} : list pystr → world → outcome :=
  script_main (lit "9th_class/short") fieldnames_plain
    (λ chapter_no section_no section_name html_content,
       plain_row chapter_no section_no section_name
         <$> extract_questions html_content).

(** long.py, lines 34-94 *)
Definition main_long `{Parser} `{Unicode} : list pystr → world → outcome :=
  script_main (lit "9th_class/long") fieldnames_plain
    (λ chapter_no section_no section_name html_content,
       plain_row chapter_no section_no section_name
         <$> extract_long_questions html_content).

(** mcqs.py, lines 94-157 *)
Definition main_mcqs `{Parser} `{Unicode} : list pystr → world → outcome :=
  script_main (lit "9th_class/mcqs") fieldnames_mcqs
    (λ chapter_no section_no section_name html_content,
       mcq_row chapter_no section_no section_name
         <$> extract_mcqs html_content).

(** The path of the CSV file a run appends to. *)
Definition csv_path_of (out_subdir book_name : pystr) : pystr :=
  path_join (path_join (lit "csv") out_subdir) (book_name ++ lit ".csv").

Definition is_data_row (r : csv_row) : bool :=
  match r with DataRow _ => true | HeaderRow _ => false end.

(** The number of data rows of a CSV file ([None]: no such file). *)
Definition data_rows (f : option (list csv_row)) : nat :=
  length (filter (λ r, is_data_row r = true) (default [] f)).

(** A parser given by a table of the documents it builds, the empty
    document elsewhere. *)
Definition table_parser (table : list (pystr * node)) : Parser :=
  {| BeautifulSoup html_text :=
       default (Tag (lit "[document]") [] ∅ [])
               (snd <$> head (filter (λ e, e.1 = html_text) table)) |}.

(** ** Documents used in the examples *)

Definition el (name : string) (classes : list pystr)
    (attrs : list (pystr * pystr)) (contents : list node) : node :=
  Tag (lit name) classes (list_to_map attrs) contents.

Definition text (s : string) : node := NavigableString (lit s).

(** The document the parser builds around the content of [body]. *)
Definition html_document (body : list node) : node :=
  el "[document]" [] [] [el "html" [] [] [el "body" [] [] body]].

(** [<div id="chooseQuestionsByChapterIDs">
       <div class="TableHover" id="Q12">
         <div class="EnglishDiv"><p>What is&nbsp;osmosis?</p></div></div>
       <div class="TableHover" id="Q&nbsp;13">
         <div class="UrduDiv"><p>osmosis</p></div></div></div>] *)
Definition plain_doc : node :=
  html_document
    [el "div" [] [(lit "id", lit "chooseQuestionsByChapterIDs")]
       [el "div" [lit "TableHover"] [(lit "id", lit "Q12")]
          [el "div" [lit "EnglishDiv"] []
             [el "p" [] []
                [NavigableString (lit "What is" ++ [NBSP] ++ lit "osmosis?")]]];
        el "div" [lit "TableHover"] [(lit "id", lit "Q" ++ [NBSP] ++ lit "13")]
          [el "div" [lit "UrduDiv"] [] [el "p" [] [] [text "osmosis"]]]]].

Definition plain_html : pystr := lit "plain.html".

(** One option of a question:
    [<li class=... thiscorrect=...><span>label</span>
       <div class="En"><p>en</p></div><div class="Ur"><p>ur</p></div></li>],
    without the span when [label] is [None]. *)
Definition option_item (classes : list pystr) (attrs : list (pystr * pystr))
    (label : option pystr) (en_text ur_text : pystr) : node :=
  el "li" classes attrs
     (match label with
      | Some l => [el "span" [] [] [NavigableString l]]
      | None => []
      end
      ++ [el "div" [lit "En"] [] [el "p" [] [] [NavigableString en_text]];
          el "div" [lit "Ur"] [] [el "p" [] [] [NavigableString ur_text]]]).

(** [<div id="chooseQuestionsByChapterIDs">
       <div class="TableHover" id="Q1">
         <div class="EnglishDiv"><p>Which one?</p></div>
         <ul>items</ul></div></div>] *)
Definition mcq_doc (items : list node) : node :=
  html_document
    [el "div" [] [(lit "id", lit "chooseQuestionsByChapterIDs")]
       [el "div" [lit "TableHover"] [(lit "id", lit "Q1")]
          [el "div" [lit "EnglishDiv"] [] [el "p" [] [] [text "Which one?"]];
           el "ul" [] [] items]]].

(** The row of [mcq_doc items], with its ancestors. *)
Definition mcq_row_of (items : list node) : option located :=
  head (select SEL_ROWS (document (mcq_doc items))).

(** Four options in the order (C), (A), (D), (B), the last one marked. *)
Definition shuffled_items : list node :=
  [option_item [] [] (Some (lit "(C)")) (lit "gamma") (lit "jim");
   option_item [] [] (Some (lit "(A)")) (lit "alpha") (lit "alif");
   option_item [] [] (Some (lit "(D)")) (lit "delta") (lit "dal");
   option_item [lit "correctAnswer"] [(lit "thiscorrect", lit "1-(B)")]
     (Some (lit "(B)")) (lit "beta") (lit "be")].

(** One marked option with the label (E). *)
Definition label_E_items : list node :=
  [option_item [lit "correctAnswer"] [] (Some (lit "(E)")) (lit "epsilon") []].

(** One marked option with the label [(&nbsp;A)]. *)
Definition label_nbsp_items : list node :=
  [option_item [lit "correctAnswer"] []
     (Some ([LPAR; NBSP] ++ lit "A)")) (lit "alpha") []].

(** Two marked options: the first labelled (A), the second without a label
    and without the [thiscorrect] attribute. *)
Definition two_marked_items : list node :=
  [option_item [lit "correctAnswer"] [] (Some (lit "(A)")) (lit "alpha") [];
   option_item [lit "correctAnswer"] [] None (lit "beta") []].

(** Two options with the same label (A). *)
Definition duplicate_items : list node :=
  [option_item [] [] (Some (lit "(A)")) (lit "first") (lit "pehla");
   option_item [] [] (Some (lit "(a)")) (lit "second") (lit "doosra")].

Definition mcq_html : pystr := lit "mcq.html".

(** The row of [mcq_doc items] and its [k]-th option, as [select] returns
    them. *)
Definition the_row (items : list node) : located :=
  default (document (mcq_doc items)) (mcq_row_of items).

Definition the_item (items : list node) (k : nat) : located :=
  default (the_row items) (select SEL_UL_LI (the_row items) !! k).

(** A world for the examples: the folder "chapter1/short" holds
    "1.1.intro.html" (the two rows of [plain_doc]) and "notes.txt"; the CSV
    file of the book "biology" exists and holds the header and one row of
    an earlier run on another chapter. *)
Definition short_world : world :=
  World (λ p, if bool_decide (p = lit "chapter1/short")
              then Some [(lit "notes.txt", Some (lit "notes"));
                         (lit "1.1.intro.html", Some plain_html)]
              else None)
        {[ lit "csv/9th_class/short/biology.csv" :=
             [HeaderRow fieldnames_plain;
              DataRow [lit "chapter0"; lit "0.1"; lit "before";
                       lit "Q1"; lit "old"; lit "purana"]] ]}.

(** The same world without the CSV file. *)
Definition fresh_world : world := World (listdir short_world) ∅.

Definition short_argv : list pystr :=
  [lit "short.py"; lit "chapter1/short/"; lit "biology"].

(** [fresh_world] with the entries of the folder listed in the other
    order. *)
Definition fresh_world_reversed : world :=
  World (λ p, reverse <$> listdir fresh_world p) ∅.

(** [fresh_world] with the input files of the folder only. *)
Definition fresh_world_inputs : world :=
  World (λ p, if bool_decide (p = lit "chapter1/short")
              then Some [(lit "1.1.intro.html", Some plain_html)]
              else None) ∅.

(** The world a run leaves ([w] when it exits early). *)
Definition world_after (o : outcome) (w : world) : world :=
  match o with
  | Finished w' => w'
  | Exit _ => w
  end.

(** ** Vocabulary of the specification *)

(** The three scripts. *)
Inductive script := Short | Long | Mcqs.

Definition run `{Parser} `{Unicode} (s : script) : list pystr → world → outcome :=
  match s with
  | Short => main_short
  | Long => main_long
  | Mcqs => main_mcqs
  end.

Definition out_subdir (s : script) : pystr :=
  match s with
  | Short => lit "9th_class/short"
  | Long => lit "9th_class/long"
  | Mcqs => lit "9th_class/mcqs"
  end.

Definition fieldnames_of (s : script) : list pystr :=
  match s with
  | Short | Long => fieldnames_plain
  | Mcqs => fieldnames_mcqs
  end.

(** The rows a run appends for a folder and its entries. *)
Definition appended_rows `{Unicode}
    (rows_of_html : pystr → pystr → pystr → pystr → list csv_row)
    (folder : pystr) (entries : list (pystr * option pystr)) : list csv_row :=
  sorted entries ≫= rows_of_entry (rows_of_html (chapter_no_of folder)).

(** The file a run leaves, from the file [f0] it found ([[]] when there
    was none) and the rows it appends. *)
Definition file_after (fieldnames : list pystr) (f0 rows : list csv_row)
    : list csv_row :=
  f0 ++ (if bool_decide (f0 = []) then [HeaderRow fieldnames] else []) ++ rows.

(** The order of [sorted] on directory entries: by name. *)
Definition entry_le {A} (e e' : pystr * A) : Prop := str_leb e.1 e'.1 = true.

(** An entry whose file contributes rows: its name ends in ".html" in any
    case and its content can be read. *)
Definition is_input `{Unicode} (e : pystr * option pystr) : Prop :=
  endswith (lit ".html") (lower e.1) = true ∧ is_Some e.2.

#[export] Instance is_input_dec `{Unicode} e : Decision (is_input e).
Proof. unfold is_input. apply _. Defined.

(** A CSV file as the scripts keep it: one header row, then data rows
    only. *)
Definition header_then_data (fieldnames : list pystr) (f : list csv_row) : Prop :=
  ∃ rows, f = HeaderRow fieldnames :: rows
          ∧ Forall (λ r, is_data_row r = true) rows.

(** A data row of [width] fields, the first of which is [chapter_no]. *)
Definition row_in_chapter (chapter_no : pystr) (width : nat) (r : csv_row) : Prop :=
  match r with
  | DataRow fields => length fields = width ∧ head fields = Some chapter_no
  | HeaderRow _ => False
  end.

(** A string that neither starts nor ends with a character of [p]. *)
Definition trimmed (p : N → bool) (s : pystr) : Prop :=
  (∀ c, head s = Some c → p c = false) ∧ (∀ c, last s = Some c → p c = false).

(** ["-(x)"] with [x] a letter of A-D in either case stands at the head of
    [tc]: the pattern of the fallback matches there. *)
Definition thiscorrect_at (x : N) (tc : pystr) : Prop :=
  ∃ post, tc = [MINUS; LPAR; x; RPAR] ++ post
          ∧ between 65 68 (ascii_upper x) = true.

(** The CSV file of a script and a book in a world. *)
Definition csv_file (s : script) (book_name : pystr) (w : world)
    : option (list csv_row) :=
  csv w !! csv_path_of (out_subdir s) book_name.


(** The letters of the four option slots. *)
Definition LETTERS : list pystr := [lit "A"; lit "B"; lit "C"; lit "D"].

(** The text of the label of an item: what its first span holds. *)
Definition label_text (li : located) : option pystr :=
  (λ s, get_text (elem s)) <$> find_tag (lit "span") li.

(** The letter an item yields for [correct_option]: none when the item is
    not marked; the label's letter when it is not empty; else the letter of
    the [thiscorrect] attribute, when the pattern finds one. *)
Definition letter_yielded `{Unicode} (li : located) : option pystr :=
  if is_marked li then
    if bool_decide (letter_of li ≠ []) then Some (letter_of li)
    else upper <$> search_thiscorrect
                     (default [] (get (lit "thiscorrect") (elem li)))
  else None.

(** The option slot of a record that a letter names. *)
Definition option_slot (r : mcq) (letter : pystr) : option option_text :=
  if bool_decide (letter = lit "A")
  then Some (OptionText (option_a_en r) (option_a_ur r))
  else if bool_decide (letter = lit "B")
  then Some (OptionText (option_b_en r) (option_b_ur r))
  else if bool_decide (letter = lit "C")
  then Some (OptionText (option_c_en r) (option_c_ur r))
  else if bool_decide (letter = lit "D")
  then Some (OptionText (option_d_en r) (option_d_ur r))
  else None.

(** The four labels. *)
Definition LABELS : list pystr := [lit "(A)"; lit "(B)"; lit "(C)"; lit "(D)"].

(** [correct_option] as "the letter of the last marked item" reads: what the
    last item that carries the marker class yields, the empty string when
    it yields nothing or when no item is marked. *)
Definition correct_of_last_marked `{Unicode} (items : list located) : pystr :=
  match last (filter (λ li, is_marked li = true) items) with
  | Some li => default [] (letter_yielded li)
  | None => []
  end.

(** The texts of an item, as the loop stores them. *)
Definition texts_of (li : located) : option_text :=
  OptionText (en_txt_of li) (ur_txt_of li).



(** What the specification calls a substring that matches "chapter"
    followed by one or more digits, whatever the case of the letters. *)
Definition chapter_word `{Unicode} (m : pystr) : Prop :=
  ∃ w ds, m = w ++ ds ∧ ascii_lower <$> w = lit "chapter"
          ∧ ds ≠ [] ∧ Forall (λ c, isdecimal c = true) ds.

(** [m] stands in [s] at index [i]. *)
Definition occurs_at (m : pystr) (i : nat) (s : pystr) : Prop :=
  ∃ post, drop i s = m ++ post.

(** [m] is the first chapter word of [s]: it starts at [i], no chapter word
    starts before [i], and none that starts at [i] is longer. *)
Definition first_chapter_word `{Unicode} (s : pystr) (i : nat) (m : pystr) : Prop :=
  chapter_word m ∧ occurs_at m i s
  ∧ ∀ j m', chapter_word m' → occurs_at m' j s →
            (i < j ∨ (i = j ∧ length m' ≤ length m))%nat.

(** * Properties *)

(** Closes a decidable goal on closed terms by evaluation. *)
Ltac vm_decide := apply (bool_decide_unpack _); vm_compute; exact I.

(** Splits [x ∉ l1 ++ c :: l2 ++ ...] into its parts. *)
Ltac solve_notin :=
  repeat (rewrite not_elem_of_app || rewrite not_elem_of_cons);
  split_and?; first [done | apply not_elem_of_nil].

(** ** Strings *)

Lemma rfind_from_app c a b i acc :
  rfind_from c (a ++ b) i acc
  = rfind_from c b (i + Z.of_nat (length a))%Z (rfind_from c a i acc).
Proof.
  revert i acc. induction a as [|x a IH]; intros i acc; simpl.
  - f_equal. lia.
  - rewrite IH. f_equal. lia.
Qed.

Lemma rfind_from_absent c s i acc : c ∉ s → rfind_from c s i acc = acc.
Proof.
  revert i acc. induction s as [|x s IH]; intros i acc Hc; simpl; [done|].
  apply not_elem_of_cons in Hc as [Hx Hs].
  rewrite IH by done.
  destruct (N.eqb_spec x c); congruence.
Qed.

Lemma rfind_absent c s : c ∉ s → rfind c s = (-1)%Z.
Proof. apply rfind_from_absent. Qed.

Lemma rfind_last c a b : c ∉ b → rfind c (a ++ c :: b) = Z.of_nat (length a).
Proof.
  intros Hb. unfold rfind. rewrite rfind_from_app. simpl.
  rewrite N.eqb_refl, rfind_from_absent by done. lia.
Qed.

Lemma cut_absent sep s : sep ∉ s → cut sep s = None.
Proof.
  induction s as [|x s IH]; simpl; [done|].
  intros [Hx Hs]%not_elem_of_cons. rewrite IH by done.
  destruct (N.eqb_spec x sep); congruence.
Qed.

Lemma cut_first sep a b : sep ∉ a → cut sep (a ++ sep :: b) = Some (a, b).
Proof.
  induction a as [|x a IH]; simpl.
  - by rewrite N.eqb_refl.
  - intros [Hx Ha]%not_elem_of_cons. rewrite IH by done.
    destruct (N.eqb_spec x sep); congruence.
Qed.

Lemma basename_no_slash p : SLASH ∉ p → basename p = p.
Proof. intros H. unfold basename. by rewrite rfind_absent. Qed.

Lemma existsb_non_dot s :
  (∃ c, c ∈ s ∧ c ≠ DOT) → existsb (λ c, negb (c =? DOT)) s = true.
Proof.
  intros (c & Hc & Hne). apply existsb_exists. exists c.
  split; [by apply list_elem_of_In|].
  by destruct (N.eqb_spec c DOT).
Qed.

(** The stem of [stem.ext]: the extension holds no dot, the name no slash,
    and the stem is not made of dots only. *)
Lemma splitext_root_ext stem ext :
  SLASH ∉ stem → SLASH ∉ ext → DOT ∉ ext → (∃ c, c ∈ stem ∧ c ≠ DOT) →
  splitext_root (stem ++ DOT :: ext) = stem.
Proof.
  intros Hs He Hd Hc. unfold splitext_root.
  rewrite rfind_last by done.
  rewrite rfind_absent.
  2:{ rewrite not_elem_of_app, not_elem_of_cons. split_and!; done. }
  rewrite (proj2 (Z.ltb_lt _ _)) by lia.
  unfold slice. change (Z.to_nat (-1 + 1)) with 0%nat.
  rewrite Nat2Z.id, Nat.sub_0_r, drop_0, take_app_length.
  by rewrite existsb_non_dot.
Qed.

Lemma lit_html_no_dot : DOT ∉ lit "html".
Proof. vm_decide. Qed.

Lemma stem_of_html stem :
  SLASH ∉ stem → (∃ c, c ∈ stem ∧ c ≠ DOT) →
  splitext_root (basename (stem ++ lit ".html")) = stem.
Proof.
  intros Hs Hc.
  assert (Hh : SLASH ∉ lit "html") by vm_decide.
  change (lit ".html") with (DOT :: lit "html").
  rewrite basename_no_slash.
  - apply splitext_root_ext; auto using lit_html_no_dot.
  - rewrite not_elem_of_app, not_elem_of_cons. split_and!; done.
Qed.

Lemma split_two_dots n m rest :
  DOT ∉ n → DOT ∉ m →
  split DOT 2 (n ++ [DOT] ++ m ++ [DOT] ++ rest) = [n; m; rest].
Proof.
  intros Hn Hm. cbn [split app]. rewrite cut_first by done.
  by rewrite cut_first.
Qed.

Lemma split_one_dot n m :
  DOT ∉ n → DOT ∉ m → split DOT 2 (n ++ [DOT] ++ m) = [n; m].
Proof.
  intros Hn Hm. cbn [split app]. rewrite cut_first by done.
  by rewrite cut_absent.
Qed.

Lemma split_no_dot s : DOT ∉ s → split DOT 2 s = [s].
Proof. intros Hs. cbn [split]. by rewrite cut_absent. Qed.

(** ** parse_section_parts *)

(** C4. A file name [N.M.slug.html] gives section number [N.M] and section
    name [slug]; [N.M.html] gives [N.M] and the empty name; a name whose
    stem holds no dot gives the empty number and the stem as the name.
    [N] and [M] are the dot-free parts before the first two dots, [N] is
    not empty, and the name is a file name (no slash). *)
Theorem parse_section_parts_forms (n m slug filename : pystr) :
  n ≠ [] → DOT ∉ n → SLASH ∉ n → DOT ∉ m → SLASH ∉ m → SLASH ∉ slug →
  parse_section_parts (n ++ [DOT] ++ m ++ [DOT] ++ slug ++ lit ".html")
    = (n ++ [DOT] ++ m, slug)
  ∧ parse_section_parts (n ++ [DOT] ++ m ++ lit ".html")
    = (n ++ [DOT] ++ m, [])
  ∧ (DOT ∉ splitext_root (basename filename) →
     parse_section_parts filename = ([], splitext_root (basename filename))).
Proof.
  intros Hn Hdn Hsn Hdm Hsm Hss.
  assert (Hc : ∀ t, ∃ c, c ∈ n ++ t ∧ c ≠ DOT).
  { intros t. destruct n as [|c n']; [done|]. exists c. split.
    - apply elem_of_app. left. apply elem_of_cons. by left.
    - intros ->. apply Hdn, elem_of_cons. by left. }
  assert (Hslash : SLASH ≠ DOT) by done.
  split_and!.
  - unfold parse_section_parts.
    replace (n ++ [DOT] ++ m ++ [DOT] ++ slug ++ lit ".html")
      with ((n ++ [DOT] ++ m ++ [DOT] ++ slug) ++ lit ".html")
      by (by rewrite <-!app_assoc).
    rewrite stem_of_html; [|solve_notin|apply Hc].
    by rewrite split_two_dots.
  - unfold parse_section_parts.
    replace (n ++ [DOT] ++ m ++ lit ".html")
      with ((n ++ [DOT] ++ m) ++ lit ".html")
      by (by rewrite <-!app_assoc).
    rewrite stem_of_html; [|solve_notin|apply Hc].
    by rewrite split_one_dot.
  - intros Hd. unfold parse_section_parts.
    by rewrite split_no_dot.
Qed.

Lemma parse_section_parts_forms_witness :
  parse_section_parts (lit "1.1.intro.html") = (lit "1.1", lit "intro")
  ∧ parse_section_parts (lit "1.1.html") = (lit "1.1", [])
  ∧ parse_section_parts (lit "intro.html") = ([], lit "intro").
Proof.
  destruct (parse_section_parts_forms (lit "1") (lit "1") (lit "intro")
              (lit "intro.html")
              ltac:(vm_decide) ltac:(vm_decide) ltac:(vm_decide)
              ltac:(vm_decide) ltac:(vm_decide) ltac:(vm_decide))
    as (H1 & H2 & H3).
  split_and!; [exact H1 | exact H2 | apply H3; vm_decide].
Defined.

(** ** The chapter of a folder *)

Lemma prefix_ci_spec pat s :
  prefix_ci pat s = true
  ↔ ∃ w post, s = w ++ post ∧ ascii_lower <$> w = pat.
Proof.
  revert s. induction pat as [|p pat IH]; intros s; simpl.
  - split; [|done]. intros _. by exists [], s.
  - destruct s as [|c s].
    + split; [done|]. intros (w & post & Hs & Hw).
      destruct w; simplify_eq/=.
    + rewrite andb_true_iff, IH, N.eqb_eq. split.
      * intros (Hc & w & post & -> & Hw). exists (c :: w), post.
        by rewrite fmap_cons, Hc, Hw.
      * intros (w & post & Hs & Hw). destruct w as [|c' w]; simplify_eq/=.
        split; [done|]. by exists w, post.
Qed.

Lemma take_while_spec p s :
  ∃ post, s = take_while p s ++ post
          ∧ Forall (λ c, p c = true) (take_while p s)
          ∧ (∀ c, head post = Some c → p c = false).
Proof.
  induction s as [|c s (post & Hs & Hall & Hpost)]; simpl.
  - exists []. split_and!; [done|constructor|done].
  - destruct (p c) eqn:Hc.
    + exists post. split_and!; [simpl; by f_equal | by constructor | done].
    + exists (c :: s). split_and!; [done|constructor|].
      intros c' [= <-]. done.
Qed.

Lemma take_while_app p ds post :
  Forall (λ c, p c = true) ds →
  take_while p (ds ++ post) = ds ++ take_while p post.
Proof.
  induction 1 as [|c ds Hc _ IH]; simpl; [done|]. by rewrite Hc, IH.
Qed.

Section chapter.
Context `{Unicode}.

Lemma chapter_word_length w : ascii_lower <$> w = lit "chapter" → length w = 7%nat.
Proof. intros Hw. by rewrite <-(length_fmap ascii_lower w), Hw. Qed.

(** A match at the head of [s] is a chapter word, the longest one there. *)
Lemma match_chapter_at_Some s m :
  match_chapter_at s = Some m →
  chapter_word m ∧ occurs_at m 0 s
  ∧ ∀ m', chapter_word m' → occurs_at m' 0 s → (length m' ≤ length m)%nat.
Proof.
  unfold match_chapter_at, occurs_at.
  destruct (prefix_ci (lit "chapter") s) eqn:Hp; [|done].
  apply prefix_ci_spec in Hp as (w & rest & -> & Hw).
  pose proof (chapter_word_length w Hw) as Hlen.
  rewrite drop_app_length', take_app_length' by done.
  destruct (take_while_spec isdecimal rest) as (post & Hrest & Hall & Hpost).
  destruct (take_while isdecimal rest) as [|d ds] eqn:Hds; [done|].
  intros [= <-]. split_and!.
  - exists w, (d :: ds). done.
  - exists post. rewrite drop_0, Hrest at 1. by rewrite <-app_assoc.
  - intros m' (w' & ds' & -> & Hw' & _ & Hall') (post' & Hocc).
    rewrite drop_0 in Hocc.
    pose proof (chapter_word_length w' Hw') as Hlen'.
    assert (w' = w ∧ rest = ds' ++ post') as [-> Hr].
    { rewrite <-app_assoc in Hocc. apply app_inj_1 in Hocc as [? ?]; [done|lia]. }
    rewrite Hr, take_while_app in Hds by done.
    rewrite !length_app. apply Nat.add_le_mono_l.
    rewrite <-Hds, length_app. lia.
Qed.

(** Where a chapter word stands, there is a match. *)
Lemma match_chapter_at_is_Some s m :
  chapter_word m → occurs_at m 0 s → is_Some (match_chapter_at s).
Proof.
  intros (w & ds & -> & Hw & Hne & Hall) (post & Hocc).
  rewrite drop_0 in Hocc. subst s. unfold match_chapter_at.
  pose proof (chapter_word_length w Hw) as Hlen.
  rewrite (proj2 (prefix_ci_spec _ _)).
  2:{ exists w, (ds ++ post). by rewrite <-app_assoc. }
  rewrite <-app_assoc, drop_app_length', take_app_length' by done.
  rewrite take_while_app by done.
  destruct ds as [|d ds]; [done|]. simpl. eauto.
Qed.

Lemma match_chapter_at_nil : match_chapter_at [] = None.
Proof. reflexivity. Qed.

Lemma search_chapter_Some s m :
  search_chapter s = Some m →
  ∃ i, match_chapter_at (drop i s) = Some m
       ∧ ∀ j, (j < i)%nat → match_chapter_at (drop j s) = None.
Proof.
  induction s as [|c s IH]; cbn [search_chapter].
  - by rewrite match_chapter_at_nil.
  - destruct (match_chapter_at (c :: s)) eqn:Hm.
    + intros [= <-]. exists 0%nat. split; [done|lia].
    + intros (i & Hi & Hlt)%IH. exists (S i). split; [done|].
      intros [|j] Hj; [done|]. apply Hlt. lia.
Qed.

Lemma search_chapter_None s :
  search_chapter s = None → ∀ i, match_chapter_at (drop i s) = None.
Proof.
  induction s as [|c s IH]; cbn [search_chapter].
  - intros _ i. by rewrite drop_nil.
  - destruct (match_chapter_at (c :: s)) eqn:Hm; [done|].
    intros Hs [|i]; [done|]. by apply IH.
Qed.

Lemma occurs_at_drop m i s : occurs_at m i s ↔ occurs_at m 0 (drop i s).
Proof. unfold occurs_at. by rewrite drop_0. Qed.

(** The search returns the first chapter word of [s], the longest one
    that starts there. *)
Lemma search_chapter_first s i m :
  chapter_word m → occurs_at m i s →
  (∀ j m', chapter_word m' → occurs_at m' j s →
           (i < j ∨ (i = j ∧ length m' ≤ length m))%nat) →
  search_chapter s = Some m.
Proof.
  intros Hm Hocc Hfirst.
  destruct (search_chapter s) as [m0|] eqn:Hs.
  - apply search_chapter_Some in Hs as (i0 & Hi0 & Hlt).
    apply match_chapter_at_Some in Hi0 as (Hw0 & Hocc0 & Hlong).
    apply occurs_at_drop in Hocc0.
    destruct (Nat.lt_trichotomy i i0) as [Hlt'|[->|Hgt]].
    + apply occurs_at_drop in Hocc.
      destruct (match_chapter_at_is_Some _ _ Hm Hocc) as [x Hx].
      rewrite Hlt in Hx by done. done.
    + destruct (Hfirst i0 m0 Hw0 Hocc0) as [?|[_ Hle]]; [lia|].
      apply occurs_at_drop in Hocc.
      specialize (Hlong m Hm Hocc).
      apply occurs_at_drop in Hocc0.
      destruct Hocc as (p1 & H1), Hocc0 as (p0 & H0).
      rewrite H1 in H0. apply app_inj_1 in H0 as [-> _]; [done|lia].
    + destruct (Hfirst i0 m0 Hw0 Hocc0) as [?|[? _]]; lia.
  - apply occurs_at_drop in Hocc.
    destruct (match_chapter_at_is_Some _ _ Hm Hocc) as [x Hx].
    by rewrite (search_chapter_None s Hs i) in Hx.
Qed.

Lemma search_chapter_absent s :
  (∀ i m, chapter_word m → ¬ occurs_at m i s) → search_chapter s = None.
Proof.
  intros Hno. destruct (search_chapter s) as [m0|] eqn:Hs; [|done].
  apply search_chapter_Some in Hs as (i0 & Hi0 & _).
  apply match_chapter_at_Some in Hi0 as (Hw0 & Hocc0 & _).
  apply occurs_at_drop in Hocc0. by destruct (Hno i0 m0).
Qed.
End chapter.

Section chapter_replace.
Context `{Unicode}.

Let r := replace1 BACKSLASH SLASH.

Lemma replace1_cons old new c s :
  replace1 old new (c :: s) = (if c =? old then new else c) :: replace1 old new s.
Proof. done. Qed.

Lemma isdecimal_slashes : isdecimal SLASH = false ∧ isdecimal BACKSLASH = false.
Proof. split; by rewrite isdecimal_ascii. Qed.

Lemma take_while_isdecimal_replace s :
  take_while isdecimal (r s) = take_while isdecimal s.
Proof.
  destruct isdecimal_slashes as [Hs Hb].
  induction s as [|c s IH]; [done|].
  unfold r in *. rewrite replace1_cons. cbn [take_while].
  destruct (N.eqb_spec c BACKSLASH) as [->|Hc].
  - by rewrite Hs, Hb.
  - by rewrite IH.
Qed.

Lemma prefix_ci_replace pat s :
  Forall (λ p, p ≠ SLASH ∧ p ≠ BACKSLASH) pat →
  prefix_ci pat (r s) = prefix_ci pat s
  ∧ (prefix_ci pat s = true → take (length pat) (r s) = take (length pat) s).
Proof.
  intros Hpat. revert s.
  induction Hpat as [|p pat [Hp1 Hp2] _ IH]; intros s; [done|].
  destruct s as [|c s]; [done|].
  unfold r in *. rewrite replace1_cons. cbn [prefix_ci length take].
  destruct (IH s) as [IH1 IH2]. rewrite IH1.
  destruct (N.eqb_spec c BACKSLASH) as [->|Hc].
  - change (ascii_lower SLASH) with SLASH.
    change (ascii_lower BACKSLASH) with BACKSLASH.
    rewrite (proj2 (N.eqb_neq SLASH p)), (proj2 (N.eqb_neq BACKSLASH p)) by done.
    done.
  - split; [done|]. intros [_ Hpre]%andb_true_iff. by rewrite IH2.
Qed.

Lemma chapter_no_slashes :
  Forall (λ p, p ≠ SLASH ∧ p ≠ BACKSLASH) (lit "chapter").
Proof. repeat constructor; done. Qed.

Lemma match_chapter_at_replace s :
  match_chapter_at (r s) = match_chapter_at s.
Proof.
  unfold match_chapter_at.
  destruct (prefix_ci_replace (lit "chapter") s chapter_no_slashes) as [H1 H2].
  rewrite H1. destruct (prefix_ci (lit "chapter") s); [|done].
  change 7%nat with (length (lit "chapter")). rewrite H2 by done.
  unfold r. unfold replace1 at 1. rewrite <-fmap_drop.
  fold (replace1 BACKSLASH SLASH (drop (length (lit "chapter")) s)).
  fold r. by rewrite take_while_isdecimal_replace.
Qed.

Lemma search_chapter_replace s :
  search_chapter (replace1 BACKSLASH SLASH s) = search_chapter s.
Proof.
  induction s as [|c s IH]; [done|].
  pose proof (match_chapter_at_replace (c :: s)) as Hm. unfold r in Hm.
  rewrite replace1_cons in *. cbn [search_chapter].
  by rewrite Hm, IH.
Qed.
End chapter_replace.

(** C5. The chapter of a path is its first substring that matches "chapter"
    followed by digits, in any case of the letters and as the path spells
    it; it is the empty string when the path has no such substring. Every
    path is in one of the two cases. *)
Theorem chapter_no_of_first_match `{Unicode} (folder : pystr) :
  (∀ i m, first_chapter_word folder i m → chapter_no_of folder = m)
  ∧ ((∀ i m, chapter_word m → ¬ occurs_at m i folder) →
     chapter_no_of folder = [])
  ∧ ((∃ i m, first_chapter_word folder i m)
     ∨ (∀ i m, chapter_word m → ¬ occurs_at m i folder)).
Proof.
  unfold chapter_no_of. rewrite search_chapter_replace. split_and!.
  - intros i m (Hm & Hocc & Hfirst).
    by rewrite (search_chapter_first folder i m).
  - intros Hno. by rewrite search_chapter_absent.
  - destruct (search_chapter folder) as [m|] eqn:Hs.
    + left. apply search_chapter_Some in Hs as (i & Hi & Hlt).
      apply match_chapter_at_Some in Hi as (Hm & Hocc & Hlong).
      exists i, m. split_and!; [done|by apply occurs_at_drop|].
      intros j m' Hm' Hocc'.
      destruct (Nat.lt_trichotomy i j) as [?|[<-|Hgt]]; [by left| |].
      * right. split; [done|]. apply Hlong; [done|by apply occurs_at_drop].
      * apply occurs_at_drop in Hocc'.
        destruct (match_chapter_at_is_Some _ _ Hm' Hocc') as [x Hx].
        by rewrite Hlt in Hx.
    + right. intros i m Hm Hocc. apply occurs_at_drop in Hocc.
      destruct (match_chapter_at_is_Some _ _ Hm Hocc) as [x Hx].
      by rewrite (search_chapter_None folder Hs i) in Hx.
Qed.

Example chapter_no_of_ex1 :
  chapter_no_of (lit "9th_class/biology/Chapter12/short") = lit "Chapter12".
Proof. vm_compute. reflexivity. Qed.

Example chapter_no_of_ex2 :
  chapter_no_of (lit "9th_class\biology\chapter/short") = [].
Proof. vm_compute. reflexivity. Qed.

(** ** The plain form: short.py and long.py *)

(** C9. The extractor of long.py and the extractor of short.py return the
    same records on every markup. *)
Theorem extract_long_questions_eq_extract_questions `{Parser} (html_text : pystr) :
  extract_long_questions html_text = extract_questions html_text.
Proof. reflexivity. Qed.

Lemma text_or_empty_None : text_or_empty None = [].
Proof. done. Qed.

Lemma select_one_nil sel x : select sel x = [] → select_one sel x = None.
Proof. unfold select_one. by intros ->. Qed.

(** C6. A row without a descendant that matches the EnglishDiv (resp.
    UrduDiv) selector gets the empty string as its english (resp. urdu)
    field, in short.py and in long.py; every row of the document has its
    record, at the row's position, whatever the rows hold. *)
Theorem missing_div_gives_empty_field `{Parser} (html_text : pystr)
    (i : nat) (row : located) :
  select SEL_ROWS (document (BeautifulSoup html_text)) !! i = Some row →
  length (extract_questions html_text)
    = length (select SEL_ROWS (document (BeautifulSoup html_text)))
  ∧ length (extract_long_questions html_text)
    = length (select SEL_ROWS (document (BeautifulSoup html_text)))
  ∧ ∃ r, extract_questions html_text !! i = Some r
         ∧ extract_long_questions html_text !! i = Some r
         ∧ q_id r = get (lit "id") (elem row)
         ∧ (select SEL_ENGLISH_P row = [] → english r = [])
         ∧ (select SEL_URDU_P row = [] → urdu r = []).
Proof.
  intros Hrow. unfold extract_long_questions, extract_questions.
  rewrite !length_fmap. split_and!; [done..|].
  rewrite list_lookup_fmap, Hrow. eexists. split_and!; [done..| |].
  - intros Hsel. cbn. by rewrite (select_one_nil _ _ Hsel).
  - intros Hsel. cbn. by rewrite (select_one_nil _ _ Hsel).
Qed.

Lemma missing_div_gives_empty_field_witness :
  let P := table_parser [(plain_html, plain_doc)] in
  ∃ r1 r2,
    @extract_questions P plain_html = [r1; r2]
    ∧ @extract_long_questions P plain_html = [r1; r2]
    ∧ urdu r1 = [] ∧ english r2 = []
    ∧ english r1 = lit "What is osmosis?" ∧ urdu r2 = lit "osmosis".
Proof.
  intros P.
  pose proof (@missing_div_gives_empty_field P plain_html 0) as H0.
  pose proof (@missing_div_gives_empty_field P plain_html 1) as H1.
  edestruct H0 as (Hlen & Hlen' & r1 & Hr1 & Hr1' & _ & _ & Hu); [vm_compute; reflexivity|].
  edestruct H1 as (_ & _ & r2 & Hr2 & Hr2' & _ & He & _); [vm_compute; reflexivity|].
  exists r1, r2.
  assert (Hr : @extract_questions P plain_html = [r1; r2]).
  { destruct (@extract_questions P plain_html) as [|a [|b [|c l]]]; simplify_eq/=. done. }
  split_and!; [done| |by apply Hu; vm_compute|by apply He; vm_compute| |].
  - destruct (@extract_long_questions P plain_html) as [|a [|b [|c l]]]; simplify_eq/=. done.
  - revert Hr. vm_compute. by intros [= <- _].
  - revert Hr. vm_compute. by intros [= _ <-].
Defined.

Lemma filter_none {A} (P : A → Prop) `{∀ x, Decision (P x)} (l : list A) :
  (∀ y, y ∈ l → ¬ P y) → filter P l = [].
Proof.
  induction l as [|a l IH]; [done|]. intros Hno.
  rewrite filter_cons_False by (apply Hno, elem_of_cons; by left).
  apply IH. intros y Hy. apply Hno, elem_of_cons. by right.
Qed.

(** *** Rows without an EnglishDiv or UrduDiv element *)

Lemma descendants_Tag anc name classes attrs cs :
  descendants anc (Tag name classes attrs cs)
  = cs ≫= (λ c, Located (Tag name classes attrs cs :: anc) c
                 :: descendants (Tag name classes attrs cs :: anc) c).
Proof.
  cbn [descendants]. generalize (Tag name classes attrs cs :: anc). intros p.
  induction cs as [|c cs IH]; [done|]. rewrite bind_cons, <-IH. done.
Qed.

Lemma node_size_child name classes attrs cs c :
  c ∈ cs → (node_size c < node_size (Tag name classes attrs cs))%nat.
Proof.
  cbn [node_size]. induction 1 as [c cs|c c' cs _ IH]; lia.
Qed.

(** The ancestors of a node below [n] are nodes below [n], [n] itself, or
    the ancestors of [n]. *)
Lemma descendants_path anc n d a :
  d ∈ descendants anc n → a ∈ path d →
  a ∈ anc ∨ a = n ∨ ∃ d', d' ∈ descendants anc n ∧ elem d' = a.
Proof.
  remember (node_size n) as k eqn:Hk. revert n Hk anc d a.
  induction (lt_wf k) as [k _ IH]. intros n -> anc d a.
  destruct n as [s|s|name classes attrs cs]; [by intros ?%elem_of_nil..|].
  rewrite descendants_Tag. set (n := Tag name classes attrs cs).
  intros (c & Hd & Hc)%list_elem_of_bind Ha.
  apply elem_of_cons in Hd as [->|Hd].
  - cbn [path] in Ha. apply elem_of_cons in Ha as [->|Ha]; auto.
  - destruct (IH (node_size c) (node_size_child _ _ _ _ _ Hc) c eq_refl
                (n :: anc) d a Hd Ha) as [Hin|[->|(d' & Hd' & <-)]].
    + apply elem_of_cons in Hin as [->|Hin]; auto.
    + right; right. exists (Located (n :: anc) c). split; [|done].
      apply list_elem_of_bind. exists c. split; [|done].
      apply elem_of_cons. by left.
    + right; right. exists d'. split; [|done].
      apply list_elem_of_bind. exists c. split; [|done].
      apply elem_of_cons. by right.
Qed.

(** No element carries the class [c] among the nodes below [x], [x] itself
    and its ancestors: then ".c tag" selects nothing in [x]. *)
Lemma select_class_absent c r x :
  (∀ d, d ∈ descendants_of x → c ∉ class_list (elem d)) →
  c ∉ class_list (elem x) →
  Forall (λ a, c ∉ class_list a) (path x) →
  select (Descendant (Compound [ByClass c]) r) x = [].
Proof.
  intros Hbelow Hself Habove. unfold select. apply filter_none.
  intros d Hd Hm. cbn [matches] in Hm.
  apply andb_true_iff in Hm as [_ Hup].
  assert (Hall : ∀ a, a ∈ path d → c ∉ class_list a).
  { intros a Ha.
    destruct (descendants_path _ _ _ _ Hd Ha) as [Hin|[->|(d' & Hd' & <-)]].
    - by eapply Forall_forall in Habove.
    - done.
    - by apply Hbelow. }
  induction (path d) as [|a rest IH]; [done|].
  apply orb_true_iff in Hup as [Ha|Hup].
  - unfold matches_compound in Ha. cbn [forallb matches_simple] in Ha.
    rewrite andb_true_r in Ha. apply andb_true_iff in Ha as [_ Ha].
    apply bool_decide_eq_true in Ha. eapply Hall; [|done].
    apply elem_of_cons. by left.
  - apply IH; [done|]. intros a' Ha'. apply Hall, elem_of_cons. by right.
Qed.

(** ** mcqs.py: the loop over the options *)

Lemma extract_mcqs_lookup `{Parser} `{Unicode} (html_text : pystr) (i : nat) :
  extract_mcqs html_text !! i
  = mcq_of_row <$> select SEL_ROWS (document (BeautifulSoup html_text)) !! i.
Proof. unfold extract_mcqs. by rewrite list_lookup_fmap. Qed.

Section mcq_loop.
Context `{Unicode}.

Implicit Types (o : gmap pystr option_text) (c L : pystr) (li : located).

Lemma li_step_fst o c li :
  (li_step (o, c) li).1
  = if bool_decide (letter_of li ∈ dom o)
    then <[letter_of li := texts_of li]> o else o.
Proof. done. Qed.

Lemma li_step_snd o c li :
  (li_step (o, c) li).2 = default c (letter_yielded li).
Proof.
  unfold li_step, letter_yielded. cbn.
  destruct (is_marked li); [|done].
  case_bool_decide; [done|].
  by destruct (search_thiscorrect _).
Qed.

Lemma li_step_dom o c li : dom (li_step (o, c) li).1 = dom o.
Proof.
  rewrite li_step_fst. case_bool_decide as Hin; [|done].
  rewrite dom_insert_L. set_solver.
Qed.

Lemma foldl_li_step_dom o c items :
  dom (foldl li_step (o, c) items).1 = dom o.
Proof.
  induction items as [|li items IH] using rev_ind; [done|].
  rewrite foldl_snoc. destruct (foldl li_step (o, c) items) as [o' c'].
  by rewrite li_step_dom.
Qed.

(** After the loop, a slot holds the texts of the last item whose letter
    names it, or what it held before the loop when there is none. *)
Lemma foldl_li_step_lookup o c items L :
  L ∈ dom o →
  (foldl li_step (o, c) items).1 !! L
  = match last (filter (λ li, letter_of li = L) items) with
    | Some li => Some (texts_of li)
    | None => o !! L
    end.
Proof.
  intros HL. induction items as [|li items IH] using rev_ind; [done|].
  rewrite foldl_snoc, filter_app, last_app.
  pose proof (foldl_li_step_dom o c items) as Hdom.
  destruct (foldl li_step (o, c) items) as [o' c']. cbn [fst] in IH, Hdom.
  rewrite li_step_fst.
  destruct (decide (letter_of li = L)) as [<-|Hne].
  - rewrite filter_cons_True, filter_nil by done. cbn [last].
    rewrite bool_decide_eq_true_2 by (by rewrite Hdom).
    by rewrite lookup_insert_eq.
  - rewrite filter_cons_False, filter_nil by done. cbn [last].
    case_bool_decide; [|done]. by rewrite lookup_insert_ne.
Qed.

(** After the loop, [correct_letter] is what the last item that yields a
    letter yields, or what it was before the loop. *)
Lemma foldl_li_step_correct o c items :
  (foldl li_step (o, c) items).2
  = default c (last (omap letter_yielded items)).
Proof.
  induction items as [|li items IH] using rev_ind; [done|].
  rewrite foldl_snoc, omap_app, last_app.
  destruct (foldl li_step (o, c) items) as [o' c']. cbn [snd] in IH.
  rewrite li_step_snd. cbn [omap list_omap].
  by destruct (letter_yielded li).
Qed.

Lemma default_opts_dom L : L ∈ dom default_opts ↔ L ∈ LETTERS.
Proof.
  unfold default_opts, LETTERS. rewrite !dom_insert_L, dom_empty_L.
  rewrite !elem_of_union, !elem_of_singleton, !elem_of_cons, elem_of_nil.
  set_solver.
Qed.

Lemma default_opts_lookup L :
  L ∈ LETTERS → default_opts !! L = Some (OptionText [] []).
Proof.
  unfold LETTERS. rewrite !elem_of_cons, elem_of_nil.
  intros [->|[->|[->|[->|[]]]]]; by vm_compute.
Qed.

Lemma mcq_of_row_correct_option row :
  correct_option (mcq_of_row row)
  = default [] (last (omap letter_yielded (select SEL_UL_LI row))).
Proof.
  unfold mcq_of_row.
  pose proof (foldl_li_step_correct default_opts [] (select SEL_UL_LI row)) as Hc.
  by destruct (foldl li_step _ _) as [o' c'].
Qed.

Lemma mcq_of_row_option_slot row L :
  L ∈ LETTERS →
  option_slot (mcq_of_row row) L
  = Some (default (OptionText [] [])
            (texts_of <$> last (filter (λ li, letter_of li = L)
                                       (select SEL_UL_LI row)))).
Proof.
  intros HL. unfold mcq_of_row.
  assert (Hl : ∀ L', L' ∈ LETTERS →
    (foldl li_step (default_opts, []) (select SEL_UL_LI row)).1 !!! L'
    = default (OptionText [] [])
        (texts_of <$> last (filter (λ li, letter_of li = L')
                                   (select SEL_UL_LI row)))).
  { intros L' HL'. rewrite lookup_total_alt, foldl_li_step_lookup
      by (by apply default_opts_dom).
    destruct (last _); [done|]. by rewrite default_opts_lookup. }
  destruct (foldl li_step _ _) as [o' c']. simpl in Hl.
  unfold option_slot. cbn [option_a_en option_a_ur option_b_en option_b_ur
    option_c_en option_c_ur option_d_en option_d_ur].
  unfold LETTERS in *.
  repeat case_bool_decide; subst;
    try (rewrite <-Hl by (rewrite !elem_of_cons; tauto);
         by destruct (o' !!! _)).
  exfalso. revert HL. rewrite !elem_of_cons, elem_of_nil. tauto.
Qed.
End mcq_loop.

(** ** mcqs.py: the records *)

Example mcq_row_of_shuffled :
  mcq_of_row <$> mcq_row_of shuffled_items
  = Some (Mcq (Some (lit "Q1")) (lit "Which one?") []
              (lit "alpha") (lit "alif") (lit "beta") (lit "be")
              (lit "gamma") (lit "jim") (lit "delta") (lit "dal")
              (lit "B")).
Proof. vm_compute. reflexivity. Qed.

Example mcq_row_of_duplicates :
  mcq_of_row <$> mcq_row_of duplicate_items
  = Some (Mcq (Some (lit "Q1")) (lit "Which one?") []
              (lit "second") (lit "doosra") [] [] [] [] [] [] []).
Proof. vm_compute. reflexivity. Qed.

(** C10. When several items of a row carry the same letter of A-D, the
    slot of that letter holds the English and Urdu texts of the last of
    them in document order. *)
Theorem duplicate_letter_last_wins `{Parser} `{Unicode} (html_text : pystr)
    (i : nat) (row li : located) (L : pystr) :
  select SEL_ROWS (document (BeautifulSoup html_text)) !! i = Some row →
  L ∈ LETTERS →
  last (filter (λ li, letter_of li = L) (select SEL_UL_LI row)) = Some li →
  ∃ r, extract_mcqs html_text !! i = Some r
       ∧ option_slot r L = Some (OptionText (en_txt_of li) (ur_txt_of li)).
Proof.
  intros Hrow HL Hlast. exists (mcq_of_row row). split.
  - by rewrite extract_mcqs_lookup, Hrow.
  - by rewrite mcq_of_row_option_slot, Hlast.
Qed.

Lemma duplicate_letter_last_wins_witness :
  let P := table_parser [(mcq_html, mcq_doc duplicate_items)] in
  ∃ r, @extract_mcqs P ascii_tables mcq_html !! 0%nat = Some r
       ∧ option_slot r (lit "A")
         = Some (OptionText (en_txt_of (the_item duplicate_items 1))
                            (ur_txt_of (the_item duplicate_items 1))).
Proof.
  intros P.
  apply (@duplicate_letter_last_wins P ascii_tables mcq_html 0
           (the_row duplicate_items) (the_item duplicate_items 1) (lit "A")).
  - vm_compute. reflexivity.
  - vm_decide.
  - vm_compute. reflexivity.
Defined.

Lemma between_65_68 y :
  between 65 68 y = true → y = 65 ∨ y = 66 ∨ y = 67 ∨ y = 68.
Proof.
  unfold between. rewrite andb_true_iff, !N.leb_le. lia.
Qed.

Lemma ascii_upper_small x : ascii_upper x ≤ 68 → x < 128.
Proof.
  unfold ascii_upper, between.
  destruct (N.leb_spec 97 x), (N.leb_spec x 122); simpl; lia.
Qed.

Section letters.
Context `{Unicode}.

Lemma upper_ascii s : Forall (λ c, c < 128) s → upper s = ascii_upper <$> s.
Proof.
  unfold upper. induction 1 as [|c s Hc _ IH]; [done|].
  cbn [mbind list_bind fmap list_fmap] in *.
  by rewrite upper_cp_ascii, IH.
Qed.

(** The fallback yields one of the four letters. *)
Lemma search_thiscorrect_letter tc g :
  search_thiscorrect tc = Some g → upper g ∈ LETTERS.
Proof.
  induction tc as [|m t IH]; [done|]. cbn [search_thiscorrect].
  destruct t as [|l [|x [|r t']]]; try exact IH.
  destruct ((m =? MINUS) && (l =? LPAR) && between 65 68 (ascii_upper x)
            && (r =? RPAR)) eqn:Hm; [|exact IH].
  intros [= <-].
  apply andb_true_iff in Hm as [Hm _]. apply andb_true_iff in Hm as [_ Hx].
  pose proof (between_65_68 _ Hx) as Hy.
  rewrite upper_ascii.
  2:{ repeat constructor. apply ascii_upper_small. lia. }
  cbn [fmap list_fmap]. unfold LETTERS.
  destruct Hy as [-> | [-> | [-> | ->]]]; vm_decide.
Qed.

(** The fallback finds the leftmost "-(x)" with x a letter of A-D in
    either case. *)
Lemma search_thiscorrect_Some tc g :
  search_thiscorrect tc = Some g →
  ∃ pre x post, tc = pre ++ [MINUS; LPAR; x; RPAR] ++ post ∧ g = [x]
                ∧ between 65 68 (ascii_upper x) = true.
Proof.
  induction tc as [|m t IH]; [done|]. cbn [search_thiscorrect].
  assert (Hrec : search_thiscorrect t = Some g →
    ∃ pre x post, m :: t = pre ++ [MINUS; LPAR; x; RPAR] ++ post ∧ g = [x]
                  ∧ between 65 68 (ascii_upper x) = true).
  { intros (pre & x & post & -> & Hg & Hx)%IH.
    by exists (m :: pre), x, post. }
  destruct t as [|l [|x [|r t']]]; try exact Hrec.
  destruct ((m =? MINUS) && (l =? LPAR) && between 65 68 (ascii_upper x)
            && (r =? RPAR)) eqn:Hm; [|exact Hrec].
  intros [= <-]. repeat (apply andb_true_iff in Hm as [Hm ?]).
  apply N.eqb_eq in Hm as ->.
  repeat match goal with Hq : (_ =? _) = true |- _ => apply N.eqb_eq in Hq as -> end.
  by exists [], x, t'.
Qed.

Lemma letter_yielded_marked li L :
  letter_yielded li = Some L →
  is_marked li = true
  ∧ ((letter_of li ≠ [] ∧ L = letter_of li)
     ∨ (letter_of li = [] ∧ L ∈ LETTERS)).
Proof.
  unfold letter_yielded. destruct (is_marked li); [|done].
  case_bool_decide as Hl.
  - intros [= <-]. split; [done|]. by left.
  - destruct (search_thiscorrect _) as [g|] eqn:Hg; [|done].
    intros [= <-]. split; [done|]. right.
    split; [|by eapply search_thiscorrect_letter].
    by destruct (decide (letter_of li = [])).
Qed.

Lemma letter_yielded_unmarked li :
  is_marked li = false → letter_yielded li = None.
Proof. unfold letter_yielded. by intros ->. Qed.

Lemma omap_all_None {A B} (f : A → option B) (l : list A) :
  Forall (λ x, f x = None) l → omap f l = [].
Proof.
  induction 1 as [|x l Hx _ IH]; [done|].
  cbn [omap list_omap]. by rewrite Hx.
Qed.
End letters.

Example two_marked_correct_option :
  correct_option (mcq_of_row (the_row two_marked_items)) = lit "A".
Proof. vm_compute. reflexivity. Qed.

(** C3, as stated, fails on a row with two marked items of which the last
    yields no letter: the letter of the first stays. *)
Lemma last_marked_counterexample :
  let items := select SEL_UL_LI (the_row two_marked_items) in
  length (filter (λ li, is_marked li = true) items) = 2%nat
  ∧ correct_of_last_marked items = []
  ∧ correct_option (mcq_of_row (the_row two_marked_items)) = lit "A"
  ∧ correct_option (mcq_of_row (the_row two_marked_items))
    ≠ correct_of_last_marked items.
Proof. vm_compute. split_and!; [done..|]. intros [=]. Qed.

(** C3, amended. [correct_option] is the letter yielded by the last item,
    in document order, that yields one: an item yields a letter when it
    carries the class correctAnswer and either its label's letter is not
    empty (that letter) or its [thiscorrect] attribute holds "-(x)" with x
    a letter of A-D in either case (x in upper case, one of A-D); it is the
    empty string when no item yields a letter, in particular when no item
    is marked. *)
Theorem correct_option_last_yielded `{Parser} `{Unicode} (html_text : pystr)
    (i : nat) (row : located) :
  select SEL_ROWS (document (BeautifulSoup html_text)) !! i = Some row →
  ∃ r, extract_mcqs html_text !! i = Some r
       ∧ correct_option r
         = default [] (last (omap letter_yielded (select SEL_UL_LI row)))
       ∧ (Forall (λ li, is_marked li = false) (select SEL_UL_LI row) →
          correct_option r = [])
       ∧ (∀ pre li post L,
            select SEL_UL_LI row = pre ++ li :: post →
            letter_yielded li = Some L →
            Forall (λ li', letter_yielded li' = None) post →
            correct_option r = L)
       ∧ (∀ li, li ∈ select SEL_UL_LI row →
            (is_marked li = false → letter_yielded li = None)
            ∧ (is_marked li = true → letter_of li ≠ [] →
               letter_yielded li = Some (letter_of li))
            ∧ (is_marked li = true → letter_of li = [] →
               letter_yielded li
               = upper <$> search_thiscorrect
                             (default [] (get (lit "thiscorrect") (elem li))))).
Proof.
  intros Hrow. exists (mcq_of_row row).
  rewrite extract_mcqs_lookup, Hrow, mcq_of_row_correct_option.
  split_and!; [done|done| | |].
  - intros Hall. rewrite omap_all_None; [done|].
    eapply Forall_impl; [exact Hall|]. apply letter_yielded_unmarked.
  - intros pre li post L -> HL Hpost.
    rewrite omap_app. cbn [omap list_omap]. rewrite HL.
    by rewrite (omap_all_None _ post), last_snoc.
  - intros li _. unfold letter_yielded. split_and!.
    + by intros ->.
    + intros -> Hl. by rewrite bool_decide_eq_true_2.
    + intros -> Hl. by rewrite bool_decide_eq_false_2 by (by intros ?).
Qed.

Lemma correct_option_last_yielded_witness :
  let P := table_parser [(mcq_html, mcq_doc shuffled_items)] in
  ∃ r, @extract_mcqs P ascii_tables mcq_html !! 0%nat = Some r
       ∧ correct_option r = lit "B".
Proof.
  intros P.
  destruct (@correct_option_last_yielded P ascii_tables mcq_html 0
              (the_row shuffled_items)) as (r & Hr & Hc & _).
  - vm_compute. reflexivity.
  - exists r. split; [exact Hr|]. rewrite Hc. vm_compute. reflexivity.
Defined.

Example label_E_correct_option :
  correct_option (mcq_of_row (the_row label_E_items)) = lit "E".
Proof. vm_compute. reflexivity. Qed.

(** C2, as stated, fails on a row whose marked item is labelled (E): the
    record's [correct_option] is "E". *)
Lemma correct_option_counterexample :
  let P := table_parser [(mcq_html, mcq_doc label_E_items)] in
  ∃ r, r ∈ @extract_mcqs P ascii_tables mcq_html
       ∧ correct_option r = lit "E"
       ∧ correct_option r ∉ [lit "A"; lit "B"; lit "C"; lit "D"; []].
Proof.
  intros P. exists (mcq_of_row (the_row label_E_items)). split_and!.
  - vm_compute. apply list_elem_of_here.
  - vm_compute. reflexivity.
  - vm_decide.
Qed.

(** C2, amended. The [correct_option] of a record is the empty string, or
    one of A, B, C, D, or the letter of the label of an item of the row
    that carries the class correctAnswer: the text of the item's first
    span, stripped of blanks and of parentheses and in upper case, which
    can be any text that is not empty. *)
Theorem correct_option_domain `{Parser} `{Unicode} (html_text : pystr)
    (i : nat) (r : mcq) :
  extract_mcqs html_text !! i = Some r →
  correct_option r = []
  ∨ correct_option r ∈ LETTERS
  ∨ ∃ row li,
      select SEL_ROWS (document (BeautifulSoup html_text)) !! i = Some row
      ∧ li ∈ select SEL_UL_LI row
      ∧ is_marked li = true
      ∧ letter_of li ≠ []
      ∧ correct_option r = letter_of li.
Proof.
  rewrite extract_mcqs_lookup.
  destruct (select SEL_ROWS _ !! i) as [row|] eqn:Hrow; [|done].
  intros [= <-]. rewrite mcq_of_row_correct_option.
  destruct (last (omap letter_yielded (select SEL_UL_LI row))) as [L|] eqn:Hl;
    [|by left].
  right. apply last_Some_elem_of, list_elem_of_omap in Hl as (li & Hli & Hy).
  apply letter_yielded_marked in Hy as (Hm & [[Hne ->]|[_ HL]]).
  - right. by exists row, li.
  - by left.
Qed.

Lemma correct_option_domain_witness :
  let P := table_parser [(mcq_html, mcq_doc shuffled_items)] in
  let r := mcq_of_row (the_row shuffled_items) in
  correct_option r = []
  ∨ correct_option r ∈ LETTERS
  ∨ ∃ row li,
      select SEL_ROWS (document (@BeautifulSoup P mcq_html)) !! 0%nat = Some row
      ∧ li ∈ select SEL_UL_LI row
      ∧ is_marked li = true
      ∧ letter_of li ≠ []
      ∧ correct_option r = letter_of li.
Proof.
  intros P r.
  apply (@correct_option_domain P ascii_tables mcq_html 0 r).
  vm_compute. reflexivity.
Defined.

Lemma last_filter_unique {A B} `{EqDecision B} (f : A → B) (l : list A) (x : A) :
  NoDup (f <$> l) → x ∈ l → last (filter (λ y, f y = f x) l) = Some x.
Proof.
  induction l as [|a l IH]; [by intros _ ?%elem_of_nil|].
  rewrite fmap_cons, NoDup_cons. intros [Ha Hnd] [->|Hx]%elem_of_cons.
  - rewrite filter_cons_True by done.
    assert (filter (λ y, f y = f a) l = []) as ->; [|done].
    apply filter_none. intros y Hy Hfy.
    apply Ha. rewrite <-Hfy. by apply list_elem_of_fmap_2.
  - rewrite filter_cons_False; [by apply IH|].
    intros Hfa. apply Ha. rewrite Hfa. by apply list_elem_of_fmap_2.
Qed.

Section labels.
Context `{Unicode}.

(** The letter of an item, from the text of its label. *)
Lemma letter_of_label li s :
  label_text li = Some s → s ≠ [] →
  letter_of li = upper (strip_chars (lit "()") (strip s)).
Proof.
  unfold label_text, letter_of.
  destruct (find_tag (lit "span") li) as [sp|]; [|done].
  intros [= <-] Hs. by rewrite bool_decide_eq_true_2.
Qed.

Lemma letter_of_LABELS li s :
  label_text li = Some s → s ∈ LABELS →
  letter_of li ∈ LETTERS ∧ s = [LPAR] ++ letter_of li ++ [RPAR].
Proof.
  intros Hl Hs. unfold LABELS in Hs.
  rewrite !elem_of_cons, elem_of_nil in Hs.
  destruct Hs as [-> | [-> | [-> | [-> | []]]]];
    rewrite (letter_of_label li _ Hl) by done;
    (rewrite upper_ascii by vm_decide);
    (split; [vm_decide | vm_compute; reflexivity]).
Qed.
End labels.

Example shuffled_labels :
  label_text <$> select SEL_UL_LI (the_row shuffled_items)
  = Some <$> [lit "(C)"; lit "(A)"; lit "(D)"; lit "(B)"].
Proof. vm_compute. reflexivity. Qed.

(** C1. A row whose items are four options labelled (A), (B), (C), (D) in
    some order, exactly one of them marked correctAnswer: the record holds
    each item's English and Urdu texts in the slot its label names, and its
    [correct_option] is the letter of the marked item. *)
Theorem options_by_letter `{Parser} `{Unicode} (html_text : pystr)
    (i : nat) (row : located) (pre post : list located) (marked : located) :
  select SEL_ROWS (document (BeautifulSoup html_text)) !! i = Some row →
  label_text <$> select SEL_UL_LI row ≡ₚ Some <$> LABELS →
  select SEL_UL_LI row = pre ++ marked :: post →
  is_marked marked = true →
  Forall (λ li, is_marked li = false) (pre ++ post) →
  ∃ r, extract_mcqs html_text !! i = Some r
       ∧ (∀ li, li ∈ select SEL_UL_LI row →
            letter_of li ∈ LETTERS
            ∧ label_text li = Some ([LPAR] ++ letter_of li ++ [RPAR])
            ∧ option_slot r (letter_of li)
              = Some (OptionText (en_txt_of li) (ur_txt_of li)))
       ∧ correct_option r = letter_of marked.
Proof.
  intros Hrow Hperm Hitems Hm Hothers. exists (mcq_of_row row).
  rewrite extract_mcqs_lookup, Hrow. split; [done|].
  assert (Hlab : ∀ li, li ∈ select SEL_UL_LI row →
            letter_of li ∈ LETTERS
            ∧ label_text li = Some ([LPAR] ++ letter_of li ++ [RPAR])).
  { intros li Hli.
    assert (Hin : label_text li ∈ Some <$> LABELS).
    { rewrite <-Hperm. by apply list_elem_of_fmap_2. }
    apply list_elem_of_fmap in Hin as (s & Hs & HsL).
    destruct (letter_of_LABELS li s Hs HsL) as [HL Heq].
    split; [done|]. by rewrite Hs, Heq at 1. }
  assert (Hnd : NoDup (label_text <$> select SEL_UL_LI row)).
  { rewrite Hperm. vm_decide. }
  assert (Hnd' : NoDup (letter_of <$> select SEL_UL_LI row)).
  { apply (NoDup_fmap_1 (λ L, Some ([LPAR] ++ L ++ [RPAR]))).
    rewrite <-list_fmap_compose.
    erewrite <-(Forall_fmap_ext_1 label_text); [exact Hnd|].
    apply Forall_forall. intros li Hli. by destruct (Hlab li Hli). }
  split.
  - intros li Hli. destruct (Hlab li Hli) as [HL Hl]. split_and!; [done..|].
    rewrite mcq_of_row_option_slot by done.
    by rewrite (last_filter_unique letter_of _ li).
  - rewrite mcq_of_row_correct_option, Hitems, omap_app.
    apply Forall_app in Hothers as [Hpre Hpost].
    rewrite (omap_all_None _ pre)
      by (eapply Forall_impl; [done|apply letter_yielded_unmarked]).
    cbn [omap list_omap app].
    rewrite (omap_all_None _ post)
      by (eapply Forall_impl; [done|apply letter_yielded_unmarked]).
    unfold letter_yielded. rewrite Hm.
    destruct (Hlab marked) as [HL _].
    { rewrite Hitems. set_solver. }
    rewrite bool_decide_eq_true_2; [done|].
    intros Hnil. rewrite Hnil in HL. revert HL. vm_decide.
Qed.

Lemma options_by_letter_witness :
  let P := table_parser [(mcq_html, mcq_doc shuffled_items)] in
  let row := the_row shuffled_items in
  ∃ r, @extract_mcqs P ascii_tables mcq_html !! 0%nat = Some r
       ∧ (∀ li, li ∈ select SEL_UL_LI row →
            letter_of li ∈ LETTERS
            ∧ label_text li = Some ([LPAR] ++ letter_of li ++ [RPAR])
            ∧ option_slot r (letter_of li)
              = Some (OptionText (en_txt_of li) (ur_txt_of li)))
       ∧ correct_option r = letter_of (the_item shuffled_items 3).
Proof.
  intros P row.
  apply (@options_by_letter P ascii_tables mcq_html 0 row
           [the_item shuffled_items 0; the_item shuffled_items 1;
            the_item shuffled_items 2] []).
  - vm_compute. reflexivity.
  - vm_decide.
  - vm_compute. reflexivity.
  - vm_compute. reflexivity.
  - vm_decide.
Defined.

(** ** Non-breaking spaces *)

Lemma replace1_absent old new s : old ≠ new → old ∉ replace1 old new s.
Proof.
  intros Hne. unfold replace1. intros (c & Hc & _)%list_elem_of_fmap.
  destruct (N.eqb_spec c old); congruence.
Qed.

Lemma elem_of_lstrip_by p s c : c ∈ lstrip_by p s → c ∈ s.
Proof.
  induction s as [|x s IH]; [done|]. cbn [lstrip_by].
  destruct (p x); [|done]. intros ?%IH. by apply elem_of_cons; right.
Qed.

Lemma elem_of_strip_by p s c : c ∈ strip_by p s → c ∈ s.
Proof.
  unfold strip_by, rstrip_by. rewrite elem_of_reverse.
  intros Hc. apply elem_of_lstrip_by in Hc. rewrite elem_of_reverse in Hc.
  by apply elem_of_lstrip_by in Hc.
Qed.

Lemma _clean_no_nbsp text : NBSP ∉ _clean text.
Proof.
  unfold _clean, strip. intros ?%elem_of_strip_by.
  by eapply (replace1_absent NBSP SPACE).
Qed.






Example plain_doc_records :
  @extract_questions (table_parser [(plain_html, plain_doc)]) plain_html
  = [Question (Some (lit "Q12")) (lit "What is osmosis?") [];
     Question (Some (lit "Q" ++ [NBSP] ++ lit "13")) [] (lit "osmosis")].
Proof. vm_compute. reflexivity. Qed.

(** ** The scripts' [main] *)

Lemma foldl_app_bind {A B} (g : A → list B) (l : list A) (f : list B) :
  foldl (λ f e, f ++ g e) f l = f ++ (l ≫= g).
Proof.
  revert f. induction l as [|a l IH]; intros f.
  - by rewrite app_nil_r.
  - cbn [foldl]. rewrite IH, bind_cons. by rewrite <-app_assoc.
Qed.

Section script_main.
Context `{Unicode}.
Variables (sub : pystr) (fieldnames : list pystr)
          (rows_of_html : pystr → pystr → pystr → pystr → list csv_row).
Hypothesis rows_of_html_data :
  ∀ c n m h, Forall (λ r, is_data_row r = true) (rows_of_html c n m h).

Lemma appended_rows_data folder entries :
  Forall (λ r, is_data_row r = true) (appended_rows rows_of_html folder entries).
Proof.
  unfold appended_rows. apply Forall_bind, Forall_forall.
  intros [name content] _. unfold compose, rows_of_entry. cbn beta iota.
  repeat case_match; first [by constructor | apply rows_of_html_data].
Qed.

(** What a run that finishes has done. *)
Lemma script_main_Finished argv w w1 :
  script_main sub fieldnames rows_of_html argv w = Finished w1 →
  ∃ arg1 book entries,
    argv !! 1%nat = Some arg1
    ∧ argv !! 2%nat = Some book
    ∧ listdir w (rstrip_chars (lit "\/") arg1) = Some entries
    ∧ listdir w1 = listdir w
    ∧ csv w1
      = <[csv_path_of sub book :=
            file_after fieldnames (default [] (csv w !! csv_path_of sub book))
              (appended_rows rows_of_html (rstrip_chars (lit "\/") arg1) entries)]>
        (csv w).
Proof.
  unfold script_main.
  destruct argv as [|a0 [|arg1 [|book rest]]]; try done.
  destruct (listdir w _) as [entries|] eqn:Hdir; [|done].
  intros [= <-]. exists arg1, book, entries.
  split_and!; [done..|]. cbn [csv]. f_equal.
  rewrite foldl_app_bind. fold (csv_path_of sub book).
  fold (appended_rows rows_of_html (rstrip_chars (lit "\/") arg1) entries).
  unfold file_after.
  destruct (csv w !! csv_path_of sub book) as [f|] eqn:Hf; cbn [default].
  - rewrite (bool_decide_eq_true_2 (is_Some (Some f))) by eauto.
    cbn [negb orb]. case_bool_decide; by rewrite <-?app_assoc.
  - rewrite (bool_decide_eq_false_2 (is_Some None)) by (by intros [? ?]).
    done.
Qed.

Lemma file_after_not_nil f0 rows : file_after fieldnames f0 rows ≠ [].
Proof.
  unfold file_after. case_bool_decide as Hf; [subst; done|].
  by destruct f0.
Qed.

(** A run with the same arguments in the world a finished run left. *)
Lemma script_main_twice argv w w1 w2 :
  script_main sub fieldnames rows_of_html argv w = Finished w1 →
  script_main sub fieldnames rows_of_html argv w1 = Finished w2 →
  ∃ book rows,
    argv !! 2%nat = Some book
    ∧ Forall (λ r, is_data_row r = true) rows
    ∧ csv w1 !! csv_path_of sub book
      = Some (file_after fieldnames (default [] (csv w !! csv_path_of sub book)) rows)
    ∧ csv w2 !! csv_path_of sub book
      = Some (file_after fieldnames (default [] (csv w !! csv_path_of sub book)) rows
              ++ rows).
Proof.
  intros (arg1 & book & entries & Ha & Hb & Hdir & Hl1 & Hc1)%script_main_Finished
         (arg1' & book' & entries' & Ha' & Hb' & Hdir' & _ & Hc2)%script_main_Finished.
  assert (book' = book) as -> by congruence.
  assert (arg1' = arg1) as -> by congruence.
  assert (entries' = entries) as -> by (rewrite Hl1 in Hdir'; congruence).
  exists book, (appended_rows rows_of_html (rstrip_chars (lit "\/") arg1) entries).
  split_and!; [done|apply appended_rows_data| |].
  - by rewrite Hc1, lookup_insert_eq.
  - rewrite Hc2, lookup_insert_eq, Hc1, lookup_insert_eq. cbn [default].
    f_equal. unfold file_after at 1.
    rewrite bool_decide_eq_false_2 by apply file_after_not_nil.
    done.
Qed.
End script_main.

Lemma data_rows_Some f :
  data_rows (Some f) = length (filter (λ r, is_data_row r = true) f).
Proof. done. Qed.

Lemma data_rows_app f rows :
  Forall (λ r, is_data_row r = true) rows →
  data_rows (Some (f ++ rows)) = (data_rows (Some f) + length rows)%nat.
Proof.
  intros Hrows. rewrite !data_rows_Some, filter_app, length_app. f_equal.
  induction Hrows as [|r rows Hr _ IH]; [done|].
  rewrite filter_cons_True by done. cbn [length]. by rewrite IH.
Qed.

Lemma data_rows_file_after fieldnames f0 rows :
  Forall (λ r, is_data_row r = true) rows →
  data_rows (Some (file_after fieldnames f0 rows))
  = (data_rows (Some f0) + length rows)%nat.
Proof.
  intros Hrows. unfold file_after. rewrite app_assoc, data_rows_app by done.
  f_equal. rewrite !data_rows_Some, filter_app.
  case_bool_decide; [|by rewrite app_nil_r].
  rewrite filter_cons_False, filter_nil by done. by rewrite app_nil_r.
Qed.

Lemma data_rows_default o : data_rows (Some (default [] o)) = data_rows o.
Proof. by destruct o. Qed.

Lemma plain_rows_data c n m (l : list question) :
  Forall (λ r, is_data_row r = true) (plain_row c n m <$> l).
Proof. apply Forall_fmap, Forall_forall. done. Qed.

Lemma mcq_rows_data c n m (l : list mcq) :
  Forall (λ r, is_data_row r = true) (mcq_row c n m <$> l).
Proof. apply Forall_fmap, Forall_forall. done. Qed.

Example short_run_fresh :
  let P := table_parser [(plain_html, plain_doc)] in
  csv_file Short (lit "biology")
    (world_after (@run P ascii_tables Short short_argv fresh_world) fresh_world)
  = Some [HeaderRow fieldnames_plain;
          DataRow [lit "chapter1"; lit "1.1"; lit "intro";
                   lit "Q12"; lit "What is osmosis?"; []];
          DataRow [lit "chapter1"; lit "1.1"; lit "intro";
                   lit "Q" ++ [NBSP] ++ lit "13"; []; lit "osmosis"]].
Proof. vm_compute. reflexivity. Qed.

(** C8, as stated, fails when the CSV file already holds rows, as it does
    after a run on another chapter of the same book: one row before, three
    after the first run, five after the second. *)
Lemma rerun_counterexample :
  let P := table_parser [(plain_html, plain_doc)] in
  let w1 := world_after (@run P ascii_tables Short short_argv short_world)
              short_world in
  let w2 := world_after (@run P ascii_tables Short short_argv w1) w1 in
  @run P ascii_tables Short short_argv short_world = Finished w1
  ∧ @run P ascii_tables Short short_argv w1 = Finished w2
  ∧ data_rows (csv_file Short (lit "biology") short_world) = 1%nat
  ∧ data_rows (csv_file Short (lit "biology") w1) = 3%nat
  ∧ data_rows (csv_file Short (lit "biology") w2) = 5%nat.
Proof. vm_compute. split_and!; reflexivity. Qed.

(** C8, amended. A second run of a script with the same arguments, in the
    world the first run left, appends the same data rows again and no
    header; the number of data rows grows by as many as the first run
    appended, and is twice the number after the first run when the file
    held no data row before the first run (it was new, empty, or a header
    only). *)
Theorem rerun_appends_again `{Parser} `{Unicode} (s : script)
    (argv : list pystr) (w w1 w2 : world) :
  run s argv w = Finished w1 →
  run s argv w1 = Finished w2 →
  ∃ book rows,
    argv !! 2%nat = Some book
    ∧ Forall (λ r, is_data_row r = true) rows
    ∧ csv_file s book w1
      = Some (file_after (fieldnames_of s)
                (default [] (csv_file s book w)) rows)
    ∧ csv_file s book w2
      = Some (file_after (fieldnames_of s)
                (default [] (csv_file s book w)) rows ++ rows)
    ∧ data_rows (csv_file s book w1)
      = (data_rows (csv_file s book w) + length rows)%nat
    ∧ data_rows (csv_file s book w2)
      = (data_rows (csv_file s book w1) + length rows)%nat
    ∧ (data_rows (csv_file s book w) = 0%nat →
       data_rows (csv_file s book w2)
       = (2 * data_rows (csv_file s book w1))%nat).
Proof.
  intros H1 H2.
  assert (∃ book rows,
    argv !! 2%nat = Some book
    ∧ Forall (λ r, is_data_row r = true) rows
    ∧ csv_file s book w1
      = Some (file_after (fieldnames_of s)
                (default [] (csv_file s book w)) rows)
    ∧ csv_file s book w2
      = Some (file_after (fieldnames_of s)
                (default [] (csv_file s book w)) rows ++ rows))
    as (book & rows & Hb & Hrows & Hf1 & Hf2).
  { unfold csv_file. destruct s; cbn [run out_subdir fieldnames_of] in *.
    - eapply script_main_twice; [|exact H1|exact H2].
      intros. apply plain_rows_data.
    - eapply script_main_twice; [|exact H1|exact H2].
      intros. apply plain_rows_data.
    - eapply script_main_twice; [|exact H1|exact H2].
      intros. apply mcq_rows_data. }
  exists book, rows. split_and!; [done..| | |].
  - by rewrite Hf1, data_rows_file_after, data_rows_default.
  - by rewrite Hf2, Hf1, data_rows_app.
  - intros Hzero. rewrite Hf2, data_rows_app, Hf1, data_rows_file_after,
      data_rows_default by done. lia.
Qed.

Lemma rerun_appends_again_witness :
  let P := table_parser [(plain_html, plain_doc)] in
  let w1 := world_after (@run P ascii_tables Short short_argv fresh_world)
              fresh_world in
  let w2 := world_after (@run P ascii_tables Short short_argv w1) w1 in
  data_rows (csv_file Short (lit "biology") w1) = 2%nat
  ∧ data_rows (csv_file Short (lit "biology") w2) = 4%nat.
Proof.
  intros P w1 w2.
  destruct (@rerun_appends_again P ascii_tables Short short_argv
              fresh_world w1 w2)
    as (book & rows & Hb & _ & _ & _ & Hd1 & _ & Hd2).
  - vm_compute. reflexivity.
  - vm_compute. reflexivity.
  - injection Hb as <-. split.
    + vm_compute. reflexivity.
    + rewrite Hd2 by (vm_compute; reflexivity). vm_compute. reflexivity.
Defined.

(** * Further properties of the code *)

(** ** The order in which the files of a folder are read *)

Lemma str_leb_refl a : str_leb a a = true.
Proof.
  induction a as [|x a IH]; [done|]. cbn [str_leb].
  by rewrite N.ltb_irrefl.
Qed.

Lemma str_leb_total a b : str_leb a b = true ∨ str_leb b a = true.
Proof.
  revert b. induction a as [|x a IH]; intros [|y b]; cbn [str_leb]; auto.
  destruct (N.ltb_spec x y), (N.ltb_spec y x); auto; lia.
Qed.

Lemma str_leb_trans a b c :
  str_leb a b = true → str_leb b c = true → str_leb a c = true.
Proof.
  revert b c. induction a as [|x a IH]; intros [|y b] [|z c];
    cbn [str_leb]; try done.
  destruct (N.ltb_spec x y), (N.ltb_spec y x), (N.ltb_spec y z),
    (N.ltb_spec z y), (N.ltb_spec x z), (N.ltb_spec z x);
    try done; try lia.
  apply IH.
Qed.

Lemma str_leb_antisym a b :
  str_leb a b = true → str_leb b a = true → a = b.
Proof.
  revert b. induction a as [|x a IH]; intros [|y b]; cbn [str_leb];
    try done.
  destruct (N.ltb_spec x y), (N.ltb_spec y x); try done; try lia.
  intros Hab Hba. f_equal; [lia|by apply IH].
Qed.

Lemma insert_entry_Permutation {A} (e : pystr * A) l :
  insert_entry e l ≡ₚ e :: l.
Proof.
  induction l as [|e' l IH]; [done|]. cbn [insert_entry].
  destruct (str_leb e.1 e'.1); [done|].
  by rewrite IH, Permutation_swap.
Qed.

Lemma sorted_Permutation {A} (l : list (pystr * A)) : sorted l ≡ₚ l.
Proof.
  induction l as [|e l IH]; [done|]. unfold sorted in *. cbn [foldr].
  by rewrite insert_entry_Permutation, IH.
Qed.

Lemma insert_entry_StronglySorted {A} (e : pystr * A) l :
  StronglySorted entry_le l → StronglySorted entry_le (insert_entry e l).
Proof.
  induction 1 as [|e' l Hl IH Hall]; cbn [insert_entry].
  { repeat constructor. }
  destruct (str_leb e.1 e'.1) eqn:Hle.
  - constructor; [by constructor|]. constructor; [done|].
    eapply Forall_impl; [exact Hall|]. intros e'' He''.
    unfold entry_le in *. by eapply str_leb_trans.
  - constructor; [done|]. rewrite insert_entry_Permutation.
    constructor; [|done]. unfold entry_le.
    by destruct (str_leb_total e.1 e'.1) as [Hc|Hc]; [congruence|].
Qed.

Lemma sorted_StronglySorted {A} (l : list (pystr * A)) :
  StronglySorted entry_le (sorted l).
Proof.
  induction l as [|e l IH]; [constructor|].
  by apply insert_entry_StronglySorted.
Qed.

(** Whatever the order in which a directory lists its entries, [sorted]
    gives them in the same order, by ascending name. *)
Lemma sorted_listing_order {A} (l l' : list (pystr * A)) :
  NoDup l.*1 → l ≡ₚ l' → sorted l = sorted l'.
Proof.
  intros Hnd Hperm.
  apply (StronglySorted_unique_strong entry_le);
    [|apply sorted_StronglySorted..|by rewrite !sorted_Permutation].
  intros [n1 c1] [n2 c2] H1 H2 Hle Hge.
  rewrite sorted_Permutation in H1. rewrite sorted_Permutation, <-Hperm in H2.
  unfold entry_le in *. cbn [fst] in *.
  pose proof (str_leb_antisym _ _ Hle Hge) as ->. f_equal.
  apply list_elem_of_lookup in H1 as [i Hi], H2 as [j Hj].
  assert (i = j) as ->; [|congruence].
  eapply (NoDup_lookup _ _ _ n2 Hnd); rewrite list_lookup_fmap.
  - by rewrite Hi.
  - by rewrite Hj.
Qed.

Lemma insert_entry_head {A} (e : pystr * A) l :
  Forall (entry_le e) l → insert_entry e l = e :: l.
Proof.
  destruct 1 as [|e' l He _]; [done|]. cbn [insert_entry].
  unfold entry_le in He. by rewrite He.
Qed.

Lemma filter_insert_entry {A} (P : pystr * A → Prop) `{∀ e, Decision (P e)}
    (e : pystr * A) l :
  StronglySorted entry_le l →
  filter P (insert_entry e l)
  = if decide (P e) then insert_entry e (filter P l) else filter P l.
Proof.
  induction 1 as [|e' l Hl IH Hall]; cbn [insert_entry].
  { rewrite filter_cons, filter_nil. by destruct (decide (P e)). }
  destruct (str_leb e.1 e'.1) eqn:Hle.
  - rewrite (filter_cons _ e). destruct (decide (P e)) as [He|He]; [|done].
    rewrite insert_entry_head; [done|].
    apply Forall_forall. intros e'' [_ He'']%list_elem_of_filter.
    apply elem_of_cons in He'' as [->|He'']; [done|].
    eapply Forall_forall in Hall; [|done].
    unfold entry_le in *. by eapply str_leb_trans.
  - rewrite !(filter_cons _ e'), IH.
    destruct (decide (P e)), (decide (P e')); cbn [insert_entry];
      by rewrite ?Hle.
Qed.

Lemma filter_sorted {A} (P : pystr * A → Prop) `{∀ e, Decision (P e)} l :
  filter P (sorted l) = sorted (filter P l).
Proof.
  induction l as [|e l IH]; [done|].
  unfold sorted in *. cbn [foldr].
  rewrite filter_insert_entry by apply sorted_StronglySorted.
  rewrite filter_cons. destruct (decide (P e)); cbn [foldr]; by rewrite IH.
Qed.

Lemma bind_filter_nil {A B} (P : A → Prop) `{∀ x, Decision (P x)}
    (g : A → list B) l :
  (∀ x, ¬ P x → g x = []) → l ≫= g = filter P l ≫= g.
Proof.
  intros Hg. induction l as [|x l IH]; [done|].
  rewrite filter_cons, bind_cons. destruct (decide (P x)).
  - by rewrite bind_cons, IH.
  - by rewrite Hg, IH.
Qed.

Section appended_rows.
Context `{Unicode}.
Variable rows_of_html : pystr → pystr → pystr → pystr → list csv_row.

Lemma rows_of_entry_not_input chapter_no e :
  ¬ is_input e → rows_of_entry (rows_of_html chapter_no) e = [].
Proof.
  destruct e as [name content]. unfold is_input, rows_of_entry. cbn [fst snd].
  destruct (endswith _ _); [|done]. destruct content; [|done].
  intros []. eauto.
Qed.

Lemma appended_rows_Permutation folder l l' :
  NoDup l.*1 → l ≡ₚ l' →
  appended_rows rows_of_html folder l = appended_rows rows_of_html folder l'.
Proof.
  intros Hnd Hperm. unfold appended_rows.
  by rewrite (sorted_listing_order l l').
Qed.

Lemma appended_rows_inputs folder l :
  appended_rows rows_of_html folder l
  = appended_rows rows_of_html folder (filter is_input l).
Proof.
  unfold appended_rows. rewrite <-filter_sorted.
  apply bind_filter_nil, rows_of_entry_not_input.
Qed.

(** Two runs with the same arguments in worlds that hold the same CSV
    files and folders whose rows are the same leave the same CSV files. *)
Lemma script_main_same_rows sub fieldnames argv w w' w1 w1' :
  script_main sub fieldnames rows_of_html argv w = Finished w1 →
  script_main sub fieldnames rows_of_html argv w' = Finished w1' →
  csv w = csv w' →
  (∀ folder l l', listdir w folder = Some l → listdir w' folder = Some l' →
     appended_rows rows_of_html folder l = appended_rows rows_of_html folder l') →
  csv w1 = csv w1'.
Proof.
  intros (arg1 & book & l & Ha & Hb & Hdir & _ & ->)%script_main_Finished
         (arg1' & book' & l' & Ha' & Hb' & Hdir' & _ & ->)%script_main_Finished
         Hcsv Hrows.
  assert (book' = book) as -> by congruence.
  assert (arg1' = arg1) as -> by congruence.
  by rewrite (Hrows _ _ _ Hdir Hdir'), Hcsv.
Qed.
End appended_rows.

(** X1. The order in which a folder lists its files does not matter: two
    runs of a script that differ only in that order (the names of a folder
    are distinct) leave the same CSV files. *)
Theorem listing_order_irrelevant `{Parser} `{Unicode} (s : script)
    (argv : list pystr) (w w' w1 w1' : world) :
  run s argv w = Finished w1 →
  run s argv w' = Finished w1' →
  csv w = csv w' →
  (∀ folder l l', listdir w folder = Some l → listdir w' folder = Some l' →
     NoDup l.*1 ∧ l ≡ₚ l') →
  csv w1 = csv w1'.
Proof.
  intros H1 H1' Hcsv Hdirs.
  destruct s; cbn [run] in *;
    (eapply script_main_same_rows; [exact H1|exact H1'|exact Hcsv|]);
    intros folder l l' Hl Hl'; destruct (Hdirs folder l l' Hl Hl');
    by apply appended_rows_Permutation.
Qed.

Lemma listing_order_irrelevant_witness :
  let P := table_parser [(plain_html, plain_doc)] in
  csv (world_after (@run P ascii_tables Short short_argv fresh_world)
         fresh_world)
  = csv (world_after (@run P ascii_tables Short short_argv fresh_world_reversed)
           fresh_world_reversed).
Proof.
  intros P.
  apply (@listing_order_irrelevant P ascii_tables Short short_argv
           fresh_world fresh_world_reversed).
  - vm_compute. reflexivity.
  - vm_compute. reflexivity.
  - reflexivity.
  - intros folder l l'. cbn [fresh_world fresh_world_reversed listdir short_world].
    case_bool_decide; [|done]. intros [= <-] [= <-].
    split; vm_decide.
Defined.

(** X2. Files whose name does not end in ".html" (in any case) and files
    that cannot be read do not matter: a run in a folder and a run in the
    same folder without them leave the same CSV files. *)
Theorem other_files_ignored `{Parser} `{Unicode} (s : script)
    (argv : list pystr) (w w' w1 w1' : world) :
  run s argv w = Finished w1 →
  run s argv w' = Finished w1' →
  csv w = csv w' →
  (∀ folder l l', listdir w folder = Some l → listdir w' folder = Some l' →
     l' = filter is_input l) →
  csv w1 = csv w1'.
Proof.
  intros H1 H1' Hcsv Hdirs.
  destruct s; cbn [run] in *;
    (eapply script_main_same_rows; [exact H1|exact H1'|exact Hcsv|]);
    intros folder l l' Hl Hl'; rewrite (Hdirs folder l l' Hl Hl');
    apply appended_rows_inputs.
Qed.

Lemma other_files_ignored_witness :
  let P := table_parser [(plain_html, plain_doc)] in
  csv (world_after (@run P ascii_tables Short short_argv fresh_world)
         fresh_world)
  = csv (world_after (@run P ascii_tables Short short_argv fresh_world_inputs)
           fresh_world_inputs).
Proof.
  intros P.
  apply (@other_files_ignored P ascii_tables Short short_argv
           fresh_world fresh_world_inputs).
  - vm_compute. reflexivity.
  - vm_compute. reflexivity.
  - reflexivity.
  - intros folder l l'. cbn [fresh_world fresh_world_inputs listdir short_world].
    case_bool_decide; [|done]. intros [= <-] [= <-].
    vm_compute. reflexivity.
Defined.

(** ** What a run does to the world *)


Lemma script_main_is_Finished `{Unicode} sub fieldnames rows_of_html
    a0 arg1 book rest w entries :
  listdir w (rstrip_chars (lit "\/") arg1) = Some entries →
  ∃ w1, script_main sub fieldnames rows_of_html (a0 :: arg1 :: book :: rest) w
        = Finished w1.
Proof. intros Hdir. unfold script_main. rewrite Hdir. eauto. Qed.


Section run_effects.
Context `{Unicode}.
Variables (sub : pystr) (fieldnames : list pystr)
          (rows_of_html : pystr → pystr → pystr → pystr → list csv_row).


Hypothesis rows_of_html_data :
  ∀ c n m h, Forall (λ r, is_data_row r = true) (rows_of_html c n m h).

Lemma script_main_header argv w w1 f0 :
  script_main sub fieldnames rows_of_html argv w = Finished w1 →
  (∀ book, argv !! 2%nat = Some book →
     default [] (csv w !! csv_path_of sub book) = f0) →
  f0 = [] ∨ header_then_data fieldnames f0 →
  ∃ book f1, argv !! 2%nat = Some book
             ∧ csv w1 !! csv_path_of sub book = Some f1
             ∧ header_then_data fieldnames f1.
Proof.
  intros (arg1 & book & l & Ha & Hb & Hdir & Hl & ->)%script_main_Finished
         Hf0 Hwf.
  exists book. eexists. rewrite lookup_insert_eq. split_and!; [done..|].
  rewrite (Hf0 book Hb). unfold file_after.
  pose proof (appended_rows_data _ rows_of_html_data
                (rstrip_chars (lit "\/") arg1) l) as Hrows.
  destruct Hwf as [->|(rows & -> & Hdata)].
  - rewrite bool_decide_eq_true_2 by done. by eexists.
  - rewrite bool_decide_eq_false_2 by done.
    exists (rows ++ appended_rows rows_of_html (rstrip_chars (lit "\/") arg1) l).
    split; [done|]. by apply Forall_app.
Qed.
End run_effects.



(** X5. The header is kept in its place: when the CSV file of the book is
    absent, empty, or a header followed by data rows, a run leaves it as
    one header followed by data rows. *)
Theorem run_keeps_header_first `{Parser} `{Unicode} (s : script)
    (argv : list pystr) (w w1 : world) (f0 : list csv_row) :
  run s argv w = Finished w1 →
  (∀ book, argv !! 2%nat = Some book →
     default [] (csv_file s book w) = f0) →
  f0 = [] ∨ header_then_data (fieldnames_of s) f0 →
  ∃ book f1, argv !! 2%nat = Some book
             ∧ csv_file s book w1 = Some f1
             ∧ header_then_data (fieldnames_of s) f1.
Proof.
  unfold csv_file. destruct s; cbn [run out_subdir fieldnames_of];
    apply script_main_header; intros;
    first [apply plain_rows_data | apply mcq_rows_data].
Qed.

Lemma run_keeps_header_first_witness :
  let P := table_parser [(plain_html, plain_doc)] in
  let w1 := world_after (@run P ascii_tables Short short_argv short_world)
              short_world in
  ∃ book f1, short_argv !! 2%nat = Some book
             ∧ csv_file Short book w1 = Some f1
             ∧ header_then_data fieldnames_plain f1.
Proof.
  intros P w1.
  apply (@run_keeps_header_first P ascii_tables Short short_argv short_world w1
           (default [] (csv_file Short (lit "biology") short_world))).
  - vm_compute. reflexivity.
  - by intros book [= <-].
  - right. eexists. split; [vm_compute; reflexivity|]. vm_decide.
Defined.

Lemma appended_rows_Forall `{Unicode} (Q : pystr → csv_row → Prop)
    rows_of_html folder entries :
  (∀ c n m h, Forall (Q c) (rows_of_html c n m h)) →
  Forall (Q (chapter_no_of folder)) (appended_rows rows_of_html folder entries).
Proof.
  intros HQ. unfold appended_rows. apply Forall_bind, Forall_forall.
  intros [name content] _. unfold compose, rows_of_entry. cbn beta iota.
  repeat case_match; first [by constructor | apply HQ].
Qed.

(** X6. Every row a run appends has as many fields as the header of its
    file (6 in short.py and long.py, 15 in mcqs.py), and its first field
    is the chapter found in the folder's path. *)
Theorem appended_rows_shape `{Parser} `{Unicode} (s : script)
    (argv : list pystr) (w w1 : world) :
  run s argv w = Finished w1 →
  ∃ arg1 book rows,
    argv !! 1%nat = Some arg1 ∧ argv !! 2%nat = Some book
    ∧ csv_file s book w1
      = Some (file_after (fieldnames_of s) (default [] (csv_file s book w)) rows)
    ∧ Forall (row_in_chapter (chapter_no_of (rstrip_chars (lit "\/") arg1))
                (length (fieldnames_of s))) rows.
Proof.
  unfold csv_file. destruct s; cbn [run out_subdir fieldnames_of];
    intros (arg1 & book & l & Ha & Hb & Hdir & _ & ->)%script_main_Finished;
    exists arg1, book; eexists; (split_and!; [done|done|by rewrite lookup_insert_eq|]);
    apply (appended_rows_Forall (λ c, row_in_chapter c _));
    intros c n m h; apply Forall_fmap, Forall_forall; by intros r _.
Qed.

Lemma appended_rows_shape_witness :
  let P := table_parser [(plain_html, plain_doc)] in
  let w1 := world_after (@run P ascii_tables Short short_argv fresh_world)
              fresh_world in
  ∃ arg1 book rows,
    short_argv !! 1%nat = Some arg1 ∧ short_argv !! 2%nat = Some book
    ∧ csv_file Short book w1
      = Some (file_after fieldnames_plain
                (default [] (csv_file Short book fresh_world)) rows)
    ∧ Forall (row_in_chapter (chapter_no_of (rstrip_chars (lit "\/") arg1)) 6)
             rows.
Proof.
  intros P w1.
  apply (@appended_rows_shape P ascii_tables Short short_argv fresh_world w1).
  vm_compute. reflexivity.
Defined.

(** ** The output files *)


(** X8. long.py and short.py write the same: from equal CSV files (or
    none), runs of the two scripts with the same arguments leave equal CSV
    files, each in its own place. *)
Theorem long_writes_what_short_writes `{Parser} `{Unicode}
    (argv : list pystr) (w ws wl : world) (book : pystr) :
  run Short argv w = Finished ws →
  run Long argv w = Finished wl →
  argv !! 2%nat = Some book →
  csv_file Long book w = csv_file Short book w →
  csv_file Long book wl = csv_file Short book ws.
Proof.
  unfold csv_file. cbn [run out_subdir].
  intros (arg1 & book1 & l & Ha & Hb & Hdir & _ & ->)%script_main_Finished
         (arg1' & book2 & l' & Ha' & Hb' & Hdir' & _ & ->)%script_main_Finished
         Hbook Hf.
  assert (book1 = book) as -> by congruence.
  assert (book2 = book) as -> by congruence.
  assert (arg1' = arg1) as -> by congruence.
  assert (l' = l) as -> by congruence.
  rewrite !lookup_insert_eq, Hf. done.
Qed.

Lemma long_writes_what_short_writes_witness :
  let P := table_parser [(plain_html, plain_doc)] in
  csv_file Long (lit "biology")
    (world_after (@run P ascii_tables Long short_argv fresh_world) fresh_world)
  = csv_file Short (lit "biology")
      (world_after (@run P ascii_tables Short short_argv fresh_world) fresh_world).
Proof.
  intros P.
  apply (@long_writes_what_short_writes P ascii_tables short_argv fresh_world).
  - vm_compute. reflexivity.
  - vm_compute. reflexivity.
  - reflexivity.
  - reflexivity.
Defined.


(** ** Stripping *)

Lemma lstrip_by_spec p s :
  ∃ a, s = a ++ lstrip_by p s ∧ Forall (λ c, p c = true) a
       ∧ ∀ c, head (lstrip_by p s) = Some c → p c = false.
Proof.
  induction s as [|x s (a & Hs & Ha & Hh)]; cbn [lstrip_by].
  - by exists [].
  - destruct (p x) eqn:Hx.
    + exists (x :: a). split_and!; [by rewrite Hs at 1|by constructor|done].
    + exists []. split_and!; [done|constructor|]. by intros c [= <-].
Qed.

Lemma lstrip_by_app p a core :
  Forall (λ c, p c = true) a → (∀ c, head core = Some c → p c = false) →
  lstrip_by p (a ++ core) = core.
Proof.
  intros Ha Hcore. induction Ha as [|x a Hx _ IH]; cbn [app lstrip_by].
  - destruct core as [|c core]; [done|]. cbn [lstrip_by].
    by rewrite (Hcore c).
  - by rewrite Hx.
Qed.

Lemma rstrip_by_spec p s :
  ∃ b, s = rstrip_by p s ++ b ∧ Forall (λ c, p c = true) b
       ∧ ∀ c, last (rstrip_by p s) = Some c → p c = false.
Proof.
  unfold rstrip_by.
  destruct (lstrip_by_spec p (reverse s)) as (a & Hs & Ha & Hh).
  exists (reverse a). split_and!.
  - rewrite <-reverse_app, <-Hs. by rewrite reverse_involutive.
  - by apply Forall_reverse.
  - intros c. rewrite last_reverse. apply Hh.
Qed.

Lemma rstrip_by_app p core b :
  Forall (λ c, p c = true) b → (∀ c, last core = Some c → p c = false) →
  rstrip_by p (core ++ b) = core.
Proof.
  intros Hb Hcore. unfold rstrip_by.
  rewrite reverse_app, lstrip_by_app.
  - apply reverse_involutive.
  - by apply Forall_reverse.
  - intros c. rewrite head_reverse. apply Hcore.
Qed.

(** [strip] removes the characters of [p] on both sides of a core that
    neither starts nor ends with one. *)
Lemma strip_by_app p a core b :
  Forall (λ c, p c = true) a → Forall (λ c, p c = true) b →
  trimmed p core → strip_by p (a ++ core ++ b) = core.
Proof.
  intros Ha Hb [Hh Hl]. unfold strip_by.
  destruct core as [|x core].
  - rewrite app_nil_l.
    assert (lstrip_by p (a ++ b) = []) as ->; [|done].
    rewrite <-(app_nil_r (a ++ b)). apply lstrip_by_app; [|done].
    by apply Forall_app.
  - rewrite lstrip_by_app; [by apply rstrip_by_app|done|].
    intros c [= <-]. by apply Hh.
Qed.

Lemma strip_by_trimmed p s : trimmed p s → strip_by p s = s.
Proof.
  intros Hs. rewrite <-(app_nil_r s) at 1.
  by apply (strip_by_app p [] s []).
Qed.

Lemma strip_by_is_trimmed p s : trimmed p (strip_by p s).
Proof.
  unfold strip_by.
  destruct (lstrip_by_spec p s) as (a & _ & _ & Hh).
  destruct (rstrip_by_spec p (lstrip_by p s)) as (b & Hs & _ & Hl).
  split; [|done]. intros c Hc. apply Hh. rewrite Hs.
  by destruct (rstrip_by p (lstrip_by p s)).
Qed.

Lemma replace1_id old new s : old ∉ s → replace1 old new s = s.
Proof.
  induction s as [|c s IH]; [done|]. intros [Hc Hs]%not_elem_of_cons.
  rewrite replace1_cons, IH by done.
  by rewrite (proj2 (N.eqb_neq c old)) by done.
Qed.

(** X9. [_clean] gives a text without blanks at its ends, and cleaning a
    clean text changes nothing. *)
Theorem _clean_trimmed_idempotent (text : pystr) :
  trimmed isspace (_clean text) ∧ _clean (_clean text) = _clean text.
Proof.
  split; [apply strip_by_is_trimmed|].
  unfold _clean at 1. rewrite replace1_id by apply _clean_no_nbsp.
  apply strip_by_trimmed, strip_by_is_trimmed.
Qed.

Lemma join_trimmed p sep parts :
  Forall (λ s, s ≠ [] ∧ trimmed p s) parts → trimmed p (join sep parts).
Proof.
  induction 1 as [|s parts [Hne [Hh Hl]] Hparts [IHh IHl]]; [done|].
  destruct parts as [|s' parts]; [done|].
  change (join sep (s :: s' :: parts)) with (s ++ sep ++ join sep (s' :: parts)).
  apply Forall_cons in Hparts as [[Hne' _] _].
  assert (join sep (s' :: parts) ≠ []) as Hj.
  { cbn [join]. destruct parts; [done|]. by destruct s'. }
  split.
  - intros c Hc. apply Hh. by destruct s.
  - intros c. rewrite app_assoc, last_app.
    destruct (last (join sep (s' :: parts))) eqn:Hlast.
    + intros [= <-]. by apply IHl.
    + by apply last_None in Hlast.
Qed.

Lemma get_text_strip_trimmed sep n : trimmed isspace (get_text_strip sep n).
Proof.
  unfold get_text_strip. apply join_trimmed, Forall_forall.
  intros s [Hne Hs]%list_elem_of_filter. split; [done|].
  apply list_elem_of_fmap in Hs as (s0 & -> & _). apply strip_by_is_trimmed.
Qed.

Lemma replace1_nbsp_trimmed s :
  trimmed isspace s → trimmed isspace (replace1 NBSP SPACE s).
Proof.
  assert (Hc : ∀ c, isspace c = false → (if c =? NBSP then SPACE else c) = c).
  { intros c Hc. destruct (N.eqb_spec c NBSP) as [->|]; [done|done]. }
  intros [Hh Hl]. unfold replace1. split; intros c.
  - destruct s as [|x s]; [done|]. cbn. intros [= <-].
    rewrite Hc; by apply Hh.
  - rewrite fmap_last. destruct (last s) as [x|]; [|done]. cbn.
    intros [= <-]. rewrite Hc; by apply Hl.
Qed.

(** The last [strip] of [_clean] finds nothing to strip in a text that
    [get_text(" ", strip=True)] returned. *)
Lemma _clean_text_or_empty p :
  _clean (text_or_empty p) = replace1 NBSP SPACE (text_or_empty p).
Proof.
  unfold _clean, strip. apply strip_by_trimmed, replace1_nbsp_trimmed.
  destruct p; [apply get_text_strip_trimmed|done].
Qed.

(** X10. The three extractors agree on what they share: on every markup,
    the id and the question texts of the records of [extract_mcqs] are the
    records of [extract_questions]. *)
Theorem extract_mcqs_questions `{Parser} `{Unicode} (html_text : pystr) :
  (λ r, Question (mcq_id r) (question_en r) (question_ur r))
    <$> extract_mcqs html_text
  = extract_questions html_text.
Proof.
  unfold extract_mcqs, extract_questions. rewrite <-list_fmap_compose.
  apply list_fmap_ext. intros _ row _. unfold compose, mcq_of_row.
  destruct (foldl li_step _ _) as [opts c]. cbn.
  by rewrite !_clean_text_or_empty.
Qed.

(** ** More on parse_section_parts *)

Lemma cut_Some sep s a b :
  cut sep s = Some (a, b) → s = a ++ sep :: b ∧ sep ∉ a.
Proof.
  revert a. induction s as [|c s IH]; intros a; cbn [cut]; [done|].
  destruct (N.eqb_spec c sep) as [->|Hc].
  - intros [= <- <-]. split; [done|apply not_elem_of_nil].
  - destruct (cut sep s) as [[a' b']|]; [|done].
    intros [= <- <-]. destruct (IH a' eq_refl) as [-> Ha'].
    split; [done|]. apply not_elem_of_cons. split; [congruence|done].
Qed.

Lemma cut_None sep s : cut sep s = None → sep ∉ s.
Proof.
  induction s as [|c s IH]; cbn [cut]; [intros _; apply not_elem_of_nil|].
  destruct (N.eqb_spec c sep) as [->|Hc]; [done|].
  destruct (cut sep s) as [[a' b']|]; [done|].
  intros _. apply not_elem_of_cons. split; [congruence|by apply IH].
Qed.

(** X11. The two parts that [parse_section_parts] returns make up the stem
    of the file name again: a stem without a dot is the section name; else
    the section number is the text up to the second dot (or the whole stem,
    when it has one dot) and holds exactly one dot, and the name is the
    rest after the second dot. *)
Theorem parse_section_parts_recompose (filename : pystr) :
  let stem := splitext_root (basename filename) in
  let '(section_no, section_name) := parse_section_parts filename in
  ((DOT ∉ stem) ∧ section_no = [] ∧ section_name = stem)
  ∨ (∃ a b, (DOT ∉ a) ∧ (DOT ∉ b) ∧ section_no = a ++ [DOT] ++ b
            ∧ ((section_name = [] ∧ stem = section_no)
               ∨ stem = section_no ++ [DOT] ++ section_name)).
Proof.
  unfold parse_section_parts. cbn zeta.
  generalize (splitext_root (basename filename)). intros stem.
  cbn [split]. destruct (cut DOT stem) as [[a rest]|] eqn:Ha.
  - apply cut_Some in Ha as [-> Hna].
    destruct (cut DOT rest) as [[b name]|] eqn:Hb.
    + apply cut_Some in Hb as [-> Hnb]. right. exists a, b. cbn.
      split_and!; [done..|]. right. by rewrite <-!app_assoc.
    + apply cut_None in Hb. right. exists a, rest. cbn.
      split_and!; [done..|]. by left.
  - apply cut_None in Ha. by left.
Qed.

Lemma basename_dir dir name :
  SLASH ∉ name → basename (dir ++ [SLASH] ++ name) = name.
Proof.
  intros Hn. unfold basename. cbn [app]. rewrite rfind_last by done.
  rewrite cons_middle, app_assoc.
  replace (Z.to_nat (Z.of_nat (length dir) + 1)) with (length (dir ++ [SLASH]))
    by (rewrite length_app; cbn; lia).
  apply drop_app_length.
Qed.

(** X12. Only the last component of a path counts: a path with folders
    before the file name gives the sections of the file name. *)
Theorem parse_section_parts_basename (dir name : pystr) :
  SLASH ∉ name →
  parse_section_parts (dir ++ [SLASH] ++ name) = parse_section_parts name.
Proof.
  intros Hn. unfold parse_section_parts.
  by rewrite basename_dir, basename_no_slash.
Qed.

Lemma parse_section_parts_basename_witness :
  parse_section_parts (lit "9th_class/biology/chapter1/short/1.1.intro.html")
  = parse_section_parts (lit "1.1.intro.html").
Proof.
  apply (parse_section_parts_basename (lit "9th_class/biology/chapter1/short")
           (lit "1.1.intro.html")).
  vm_decide.
Defined.

(** ** More on the chapter of a folder *)

Section chapter_rstrip.
Context `{Unicode}.

Lemma prefix_ci_app_slashes pat s t :
  Forall (λ p, p ≠ SLASH ∧ p ≠ BACKSLASH) pat →
  Forall (λ c, c = SLASH ∨ c = BACKSLASH) t →
  pat ≠ [] → prefix_ci pat (s ++ t) = prefix_ci pat s.
Proof.
  intros Hpat Ht. revert s. induction Hpat as [|p pat [Hp1 Hp2] Hrest IH];
    intros s Hne; [done|].
  destruct s as [|c s].
  - cbn [app]. destruct Ht as [|c t [-> | ->] _]; [done| |]; cbn [prefix_ci].
    + change (ascii_lower SLASH) with SLASH.
      by rewrite (proj2 (N.eqb_neq SLASH p)) by done.
    + change (ascii_lower BACKSLASH) with BACKSLASH.
      by rewrite (proj2 (N.eqb_neq BACKSLASH p)) by done.
  - cbn [app prefix_ci]. destruct pat as [|p' pat]; [done|].
    by rewrite IH.
Qed.

Lemma take_while_isdecimal_app_slashes s t :
  Forall (λ c, c = SLASH ∨ c = BACKSLASH) t →
  take_while isdecimal (s ++ t) = take_while isdecimal s.
Proof.
  intros Ht. destruct isdecimal_slashes as [Hs Hb].
  induction s as [|c s IH]; cbn [app take_while].
  - destruct Ht as [|c t [-> | ->] _]; [done| |]; cbn [take_while].
    + by rewrite Hs.
    + by rewrite Hb.
  - by rewrite IH.
Qed.

Lemma match_chapter_at_app_slashes s t :
  Forall (λ c, c = SLASH ∨ c = BACKSLASH) t →
  match_chapter_at (s ++ t) = match_chapter_at s.
Proof.
  intros Ht. unfold match_chapter_at.
  rewrite prefix_ci_app_slashes by (done || apply chapter_no_slashes).
  destruct (prefix_ci (lit "chapter") s) eqn:Hp; [|done].
  apply prefix_ci_spec in Hp as (w & rest & -> & Hw).
  pose proof (chapter_word_length w Hw) as Hlen.
  rewrite <-app_assoc, !drop_app_length', !take_app_length' by done.
  by rewrite take_while_isdecimal_app_slashes.
Qed.

Lemma match_chapter_at_slashes t :
  Forall (λ c, c = SLASH ∨ c = BACKSLASH) t → match_chapter_at t = None.
Proof.
  intros Ht. by rewrite <-(app_nil_l t), match_chapter_at_app_slashes.
Qed.

Lemma search_chapter_slashes t :
  Forall (λ c, c = SLASH ∨ c = BACKSLASH) t → search_chapter t = None.
Proof.
  induction 1 as [|c t Hc Ht IH]; [done|]. cbn [search_chapter].
  rewrite match_chapter_at_slashes by by constructor. done.
Qed.

Lemma search_chapter_app_slashes s t :
  Forall (λ c, c = SLASH ∨ c = BACKSLASH) t →
  search_chapter (s ++ t) = search_chapter s.
Proof.
  intros Ht. induction s as [|c s IH].
  - rewrite app_nil_l, search_chapter_slashes by done. done.
  - cbn [app search_chapter].
    rewrite <-(match_chapter_at_app_slashes (c :: s) t) by done.
    cbn [app]. by rewrite IH.
Qed.

(** X13. Slashes and backslashes at the end of the folder do not change
    its chapter, and neither does the spelling of its separators: the
    chapter [main] finds is the chapter of its argument as typed. *)
Theorem chapter_no_of_separators (folder : pystr) :
  chapter_no_of (rstrip_chars (lit "\/") folder) = chapter_no_of folder
  ∧ chapter_no_of (replace1 BACKSLASH SLASH folder) = chapter_no_of folder
  ∧ chapter_no_of (replace1 SLASH BACKSLASH folder) = chapter_no_of folder.
Proof.
  unfold chapter_no_of. rewrite !search_chapter_replace. split_and!; [|done|].
  - unfold rstrip_chars.
    destruct (rstrip_by_spec (in_chars (lit "\/")) folder) as (b & Hf & Hb & _).
    rewrite Hf at 2. rewrite search_chapter_app_slashes; [done|].
    eapply Forall_impl; [exact Hb|]. intros c Hc.
    apply bool_decide_eq_true in Hc. revert Hc.
    change (lit "\/") with [BACKSLASH; SLASH].
    rewrite !elem_of_cons, elem_of_nil. tauto.
  - rewrite <-(search_chapter_replace (replace1 SLASH BACKSLASH folder)).
    rewrite <-(search_chapter_replace folder). do 2 f_equal.
    unfold replace1. rewrite <-list_fmap_compose. apply list_fmap_ext.
    intros _ c _. unfold compose.
    destruct (N.eqb_spec c SLASH) as [->|]; [done|].
    by destruct (N.eqb_spec c BACKSLASH).
Qed.
End chapter_rstrip.

(** ** More on the options of a question *)

Lemma isspace_paren c : in_chars (lit "()") c = true → isspace c = false.
Proof.
  intros Hc. apply bool_decide_eq_true in Hc. revert Hc.
  change (lit "()") with [LPAR; RPAR].
  rewrite !elem_of_cons, elem_of_nil. by intros [-> | [-> | []]].
Qed.

(** X14. The label of an option is read leniently: blanks around it and
    any number of parentheses around its core are dropped, and the letter
    is the core in upper case. *)
Theorem letter_of_decorated_label `{Unicode} (li : located)
    (sp1 pa1 core pa2 sp2 : pystr) :
  label_text li = Some (sp1 ++ (pa1 ++ core ++ pa2) ++ sp2) →
  Forall (λ c, isspace c = true) sp1 → Forall (λ c, isspace c = true) sp2 →
  Forall (λ c, in_chars (lit "()") c = true) pa1 →
  Forall (λ c, in_chars (lit "()") c = true) pa2 →
  trimmed isspace core → trimmed (in_chars (lit "()")) core →
  letter_of li = upper core.
Proof.
  intros Hl Hs1 Hs2 Hp1 Hp2 Hcs Hcp.
  assert (Hupper : upper (strip_chars (lit "()")
                    (strip (sp1 ++ (pa1 ++ core ++ pa2) ++ sp2))) = upper core).
  { unfold strip. rewrite strip_by_app; [|done..|].
    - unfold strip_chars. by rewrite strip_by_app.
    - destruct Hcs as [Hh Hlast]. split; intros c.
      + destruct Hp1 as [|p pa1 Hp _].
        * rewrite app_nil_l. destruct core as [|x core]; [|by apply Hh].
          rewrite app_nil_l. destruct Hp2 as [|p pa2 Hp _]; [done|].
          intros [= <-]. by apply isspace_paren.
        * intros [= <-]. by apply isspace_paren.
      + rewrite app_assoc, last_app.
        destruct (last pa2) as [p|] eqn:Hpa2.
        * intros [= <-]. apply isspace_paren.
          eapply Forall_forall in Hp2; [done|]. by eapply last_Some_elem_of.
        * apply last_None in Hpa2 as ->. rewrite last_app.
          destruct (last core) as [x|] eqn:Hcore.
          { intros [= <-]. by apply Hlast. }
          destruct (last pa1) as [p|] eqn:Hpa1; [|done].
          intros [= <-]. apply isspace_paren.
          eapply Forall_forall in Hp1; [done|]. by eapply last_Some_elem_of. }
  destruct (decide (sp1 ++ (pa1 ++ core ++ pa2) ++ sp2 = [])) as [Hnil|Hne].
  - unfold label_text, letter_of in *.
    destruct (find_tag (lit "span") li) as [sp|]; [|done].
    injection Hl as Hl. rewrite Hl, Hnil.
    rewrite bool_decide_eq_false_2 by (by intros ?).
    apply app_eq_nil in Hnil as [_ Hnil]. apply app_eq_nil in Hnil as [Hnil _].
    apply app_eq_nil in Hnil as [_ Hnil]. apply app_eq_nil in Hnil as [-> _].
    done.
  - by rewrite (letter_of_label li _ Hl Hne).
Qed.

Lemma letter_of_decorated_label_witness :
  letter_of (the_item duplicate_items 1) = upper (lit "a").
Proof.
  apply (letter_of_decorated_label (the_item duplicate_items 1)
           [] (lit "(") (lit "a") (lit ")") []).
  - vm_compute. reflexivity.
  - constructor.
  - constructor.
  - vm_decide.
  - vm_decide.
  - split; intros c [= <-]; reflexivity.
  - split; intros c [= <-]; reflexivity.
Defined.

(** X15. The slot of a letter that no item of the row carries stays empty:
    both texts are the empty string. In particular a row without options
    has eight empty option fields. *)
Theorem absent_letter_empty_slot `{Parser} `{Unicode} (html_text : pystr)
    (i : nat) (row : located) (L : pystr) :
  select SEL_ROWS (document (BeautifulSoup html_text)) !! i = Some row →
  L ∈ LETTERS →
  Forall (λ li, letter_of li ≠ L) (select SEL_UL_LI row) →
  ∃ r, extract_mcqs html_text !! i = Some r
       ∧ option_slot r L = Some (OptionText [] []).
Proof.
  intros Hrow HL Hno. exists (mcq_of_row row). split.
  - by rewrite extract_mcqs_lookup, Hrow.
  - rewrite mcq_of_row_option_slot by done.
    rewrite filter_none; [done|].
    intros li Hli. by eapply Forall_forall in Hno.
Qed.

Lemma absent_letter_empty_slot_witness :
  let P := table_parser [(mcq_html, mcq_doc duplicate_items)] in
  ∃ r, @extract_mcqs P ascii_tables mcq_html !! 0%nat = Some r
       ∧ option_slot r (lit "C") = Some (OptionText [] []).
Proof.
  intros P.
  apply (@absent_letter_empty_slot P ascii_tables mcq_html 0
           (the_row duplicate_items) (lit "C")).
  - vm_compute. reflexivity.
  - vm_decide.
  - vm_decide.
Defined.

(** ** More on the fallback attribute *)

Lemma search_thiscorrect_cons c t :
  search_thiscorrect (c :: t)
  = match t with
    | l :: x :: r :: _ =>
        if (c =? MINUS) && (l =? LPAR) && between 65 68 (ascii_upper x)
           && (r =? RPAR)
        then Some [x] else search_thiscorrect t
    | _ => search_thiscorrect t
    end.
Proof. by destruct t as [|l [|x [|r t']]]. Qed.

Lemma thiscorrect_at_dec_cons c t :
  match t with
  | l :: x :: r :: _ =>
      if (c =? MINUS) && (l =? LPAR) && between 65 68 (ascii_upper x)
         && (r =? RPAR)
      then thiscorrect_at x (c :: t) else ∀ y, ¬ thiscorrect_at y (c :: t)
  | _ => ∀ y, ¬ thiscorrect_at y (c :: t)
  end.
Proof.
  destruct t as [|l [|x [|r t']]]; try by intros y (post & [=] & _).
  destruct ((c =? MINUS) && (l =? LPAR) && between 65 68 (ascii_upper x)
            && (r =? RPAR)) eqn:Hm.
  - repeat (apply andb_true_iff in Hm as [Hm ?]).
    apply N.eqb_eq in Hm as ->.
    repeat match goal with Hq : (_ =? _) = true |- _ => apply N.eqb_eq in Hq as -> end.
    by exists t'.
  - intros y (post & [= -> -> <- -> _] & Hy).
    by rewrite !N.eqb_refl, Hy in Hm.
Qed.

(** X16. The fallback [re.search] finds a letter exactly when "-(x)", x a
    letter of A-D in either case, stands somewhere in the attribute; the
    letter is that of the leftmost such place, and in upper case it is one
    of A, B, C, D. *)
Theorem search_thiscorrect_leftmost `{Unicode} (tc : pystr) :
  match search_thiscorrect tc with
  | Some g =>
      ∃ i x, g = [x] ∧ thiscorrect_at x (drop i tc)
             ∧ (∀ j y, (j < i)%nat → ¬ thiscorrect_at y (drop j tc))
             ∧ upper g = [ascii_upper x] ∧ upper g ∈ LETTERS
  | None => ∀ j y, ¬ thiscorrect_at y (drop j tc)
  end.
Proof.
  induction tc as [|c t IH].
  - cbn. intros j y (post & Hp & _). by rewrite drop_nil in Hp.
  - rewrite search_thiscorrect_cons.
    pose proof (thiscorrect_at_dec_cons c t) as Hhead.
    assert (Hshift :
      match search_thiscorrect t with
      | Some g =>
          (∀ y, ¬ thiscorrect_at y (c :: t)) →
          ∃ i x, g = [x] ∧ thiscorrect_at x (drop i (c :: t))
                 ∧ (∀ j y, (j < i)%nat → ¬ thiscorrect_at y (drop j (c :: t)))
                 ∧ upper g = [ascii_upper x] ∧ upper g ∈ LETTERS
      | None =>
          (∀ y, ¬ thiscorrect_at y (c :: t)) →
          ∀ j y, ¬ thiscorrect_at y (drop j (c :: t))
      end).
    { destruct (search_thiscorrect t) as [g|].
      - destruct IH as (i & x & -> & Hat & Hleft & Hup & HL). intros Hno.
        exists (S i), x. split_and!; [done..| |done|done].
        intros [|j] y Hj; [apply Hno|]. apply Hleft. lia.
      - intros Hno [|j] y; [apply Hno|apply IH]. }
    destruct t as [|l [|x [|r t']]];
      try (destruct (search_thiscorrect _); by apply Hshift).
    destruct ((c =? MINUS) && (l =? LPAR) && between 65 68 (ascii_upper x)
              && (r =? RPAR)) eqn:Hm;
      [|destruct (search_thiscorrect _); by apply Hshift].
    exists 0%nat, x.
    assert (Hx : between 65 68 (ascii_upper x) = true).
    { by destruct Hhead as (post & _ & Hx). }
    assert (Hup : upper [x] = [ascii_upper x]).
    { rewrite upper_ascii; [done|]. repeat constructor.
      apply ascii_upper_small. apply between_65_68 in Hx. lia. }
    split_and!; [done|done|intros j y Hj; lia|done|].
    rewrite Hup. apply between_65_68 in Hx.
    destruct Hx as [-> | [-> | [-> | ->]]]; vm_decide.
Qed.

Example search_thiscorrect_ex :
  search_thiscorrect (lit "12-(x) 1-(b)-(A)") = Some (lit "b").
Proof. reflexivity. Qed.
